(** * SCRUM Poker planning: the room hook and the estimate adapter

    A shallow embedding of [hooks/useSupabaseRoom.tsx] and
    [services/geminiService.jsx], with the types of [types.ts] and the
    personas of [constants.ts].

    Conventions of the embedding.
    - A JavaScript object used as a map ([Record<string, Vote>], a table
      of the store keyed by its primary key) is a [gmap string _].
    - A value of type [number | string] is a [JsValue]; the numbers that
      travel as vote values are the integers of the deck, so they are [Z].
      What the oracle answers is an arbitrary number, an IEEE 754 double:
      a [float] of the kernel, with its rounding arithmetic.
    - A string is a sequence of ASCII characters; where a statement
      depends on how other characters would be trimmed or counted, it
      says so by a hypothesis ([has_visible], [ascii_only]).
    - Property lookup in an object literal also finds what the literal
      inherits from [Object.prototype] ([truthy_at]).
    - A function that may throw returns a [Completion].
    - The updater passed to [setRoomState] is a function
      [RoomState -> RoomState]; an [async] function that writes to the
      store is a computation in the monad [Io], which threads the tables
      and logs, in order, the adapter calls and the change events that the
      writes cause. *)

From Stdlib Require Import ZArith QArith Qabs Qround Ascii String Lia.
From Stdlib Require Import Floats.
From stdpp Require Import base option list gmap strings pretty.

Open Scope Z_scope.
Open Scope string_scope.

(** ** JavaScript values and completions *)

Module Js.

Inductive JsError :=
| TypeError
| Error (message : string)
| Rejected.

Inductive Completion (A : Type) :=
| Normal (a : A)
| Throw (e : JsError).
Arguments Normal {A} a.
Arguments Throw {A} e.

#[global] Instance Completion_ret : MRet Completion := fun A a => Normal a.
#[global] Instance Completion_bind : MBind Completion := fun A B k m =>
  match m with
  | Normal a => k a
  | Throw e => Throw e
  end.

(** [try { body } catch (error) { handler }] *)
Definition try_catch {A} (body : Completion A) (handler : JsError -> Completion A)
  : Completion A :=
  match body with
  | Normal a => Normal a
  | Throw e => handler e
  end.

(** [number | string] *)
Inductive JsValue :=
| JsNumber (n : Z)
| JsString (s : string).

#[global] Instance JsValue_eq_dec : EqDecision JsValue.
Proof. solve_decision. Defined.

(** [value.toString()]: the decimal form of a number, a string itself. *)
Definition toString (v : JsValue) : string :=
  match v with
  | JsNumber n => pretty n
  | JsString s => s
  end.

(** White space that [String.prototype.trim] strips, among the ASCII
    characters: TAB, LF, VT, FF, CR and SPACE. On a string of ASCII
    characters [trim] below is [String.prototype.trim]; the white space
    outside ASCII (U+00A0, U+FEFF, U+2028, ...) is not represented. *)
Definition is_white_space (c : ascii) : bool :=
  let n := nat_of_ascii c in
  ((9 <=? n)%nat && (n <=? 13)%nat) || (n =? 32)%nat.

Fixpoint trimStart (s : string) : string :=
  match s with
  | EmptyString => EmptyString
  | String c s' => if is_white_space c then trimStart s' else s
  end.

Definition trimEnd (s : string) : string :=
  String.rev (trimStart (String.rev s)).

Definition trim (s : string) : string := trimEnd (trimStart s).

(** Truthiness of a string: [!s] holds of the empty string only. *)
Definition truthy (s : string) : bool := negb (String.eqb s "").

(** [s || d] on strings. *)
Definition or_else (s d : string) : string := if truthy s then s else d.

(** An ASCII character that is not white space: no trimming removes it,
    however the characters outside ASCII are encoded. *)
Definition is_visible (c : ascii) : bool :=
  (nat_of_ascii c <? 128)%nat && negb (is_white_space c).

Fixpoint has_visible (s : string) : bool :=
  match s with
  | EmptyString => false
  | String c s' => is_visible c || has_visible s'
  end.

(** The string is written in ASCII: its characters are its UTF-16 code
    units, so [String.length] is its [length] and [trim] its [trim()]. *)
Fixpoint ascii_only (s : string) : bool :=
  match s with
  | EmptyString => true
  | String c s' => (nat_of_ascii c <? 128)%nat && ascii_only s'
  end.

(** The property names an object literal inherits from
    [Object.prototype]; each of them is a function or, for [__proto__],
    the prototype itself: a truthy value. *)
Definition Object_prototype : list string :=
  ["constructor"; "__defineGetter__"; "__defineSetter__"; "hasOwnProperty";
   "__lookupGetter__"; "__lookupSetter__"; "isPrototypeOf";
   "propertyIsEnumerable"; "toString"; "valueOf"; "__proto__"; "toLocaleString"].

(** [!!obj[key]] for an object literal [obj] whose own values are objects:
    an own property, or else an inherited one. *)
Definition truthy_at {V} (obj : gmap string V) (key : string) : bool :=
  bool_decide (is_Some (obj !! key)) || bool_decide (key ∈ Object_prototype).

(** [Array.prototype.reduce] without an initial value. *)
Definition reduce {A} (f : A -> A -> A) (l : list A) : Completion A :=
  match l with
  | [] => Throw TypeError
  | x :: xs => Normal (fold_left f xs x)
  end.

(** [a < b] on numbers. *)
Definition Qlt_bool (a b : Q) : bool := negb (Qle_bool b a).

(** The result of [Math.random()]: a number in [0, 1). *)
Record Random := {
  rnd : Q;
  rnd_range : Qle_bool 0 rnd && Qlt_bool rnd 1 = true
}.

End Js.
Import Js.

(** ** IEEE 754 doubles

    A JavaScript number is a [float] of the kernel (binary64, rounding to
    nearest, ties to even). Its exact value, when it is finite, is read
    off its mantissa and exponent. *)

Module Double.

(** The double nearest to the integer [m], for 0 <= m < 2^63: the
    integer itself when it is representable, as the literals 1, 2, 3, 5,
    8, 13 and 21 of the source are. *)
Definition number (m : Z) : float := PrimFloat.of_uint63 (Uint63.of_Z m).

(** The double of an integer of either sign, below 2^63 in magnitude. *)
Definition integer (n : Z) : float :=
  if (n <? 0)%Z then PrimFloat.opp (number (- n)) else number n.

(** The mantissa [m] at exponent [e], as a multiple of 2^-1074, the least
    positive double. *)
Definition scaled (m : positive) (e : Z) : Z := Zpos m * 2 ^ (e + 1074).

(** The value of a finite double, as a rational. *)
Definition value_of (f : spec_float) : option Q :=
  match f with
  | S754_zero _ => Some 0%Q
  | S754_finite s m e =>
    Some (Qmake ((if s then -1 else 1) * scaled m e) (2 ^ 1074)%positive)
  | S754_infinity _ | S754_nan => None
  end.

Definition exact (x : float) : option Q := value_of (Prim2SF x).

(** [x] is finite and its value is [q]. *)
Definition has_value (x : float) (q : Q) : bool :=
  match exact x with
  | Some q' => Qeq_bool q' q
  | None => false
  end.

End Double.
Import Double.

(** ** types.ts *)

Module Types.

Inductive UserType := HUMAN | AI.
Inductive GamePhase := SETUP | VOTING | REVEALED.

#[global] Instance UserType_eq_dec : EqDecision UserType.
Proof. solve_decision. Defined.
#[global] Instance GamePhase_eq_dec : EqDecision GamePhase.
Proof. solve_decision. Defined.

Record Player := {
  id : string;
  name : string;
  type : UserType;
  avatarUrl : string;
  persona : option string
}.

Record Vote := {
  playerId : string;
  value : JsValue;
  reasoning : option string
}.

Record Story := {
  title : string;
  description : string
}.

Definition FIBONACCI_DECK : list JsValue :=
  [JsNumber 1; JsNumber 2; JsNumber 3; JsNumber 5; JsNumber 8;
   JsNumber 13; JsNumber 21; JsString "?"].

Record AiPersona := {
  persona_id : string;
  persona_name : string;
  role : string;
  avatarSeed : string;
  persona_description : string
}.

End Types.
Import Types.

(** ** constants.ts *)

Definition AI_PERSONAS : list AiPersona := [
  {| persona_id := "ai-senior";
     persona_name := "Sarah (Senior Dev)";
     role := "Senior Full Stack Engineer";
     avatarSeed := "sarah";
     persona_description :=
       "Cautious, considers technical debt and edge cases. Tends to estimate higher." |};
  {| persona_id := "ai-junior";
     persona_name := "Mike (Junior Dev)";
     role := "Junior Frontend Developer";
     avatarSeed := "mike";
     persona_description :=
       "Optimistic, focuses on the happy path. Tends to estimate lower." |};
  {| persona_id := "ai-qa";
     persona_name := "Alex (QA Lead)";
     role := "QA Automation Engineer";
     avatarSeed := "alex";
     persona_description :=
       "Focuses on testing complexity and potential bugs. Moderate to high estimates." |};
  {| persona_id := "ai-pm";
     persona_name := "Jessica (Product)";
     role := "Product Manager";
     avatarSeed := "jessica";
     persona_description :=
       "Focuses on business value, sometimes underestimates technical complexity." |}
].

(** ** services/geminiService.jsx *)

Module GeminiService.

(** A JavaScript number as the adapter computes with it: a double. Every
    comparison with [NaN] is false. *)
Definition Number := float.

Definition num_sub (a b : Number) : Number := PrimFloat.sub a b.
Definition Math_abs (a : Number) : Number := PrimFloat.abs a.
Definition num_lt (a b : Number) : bool := PrimFloat.ltb a b.
(** [a === b] on numbers, which is also how [includes] compares them
    (there is no [NaN] among the members). *)
Definition num_eq (a b : Number) : bool := PrimFloat.eqb a b.

(** What [generateContent] is called with: the model and the prompt, of
    which the four interpolated strings are kept. *)
Record GenerateContentParameters := {
  model : string;
  prompt_personaName : string;
  prompt_personaRole : string;
  prompt_title : string;
  prompt_description : string
}.

(** The client of the oracle: [generateContent] rejects, or resolves to a
    response of which [text] is read ([None] when it is undefined). *)
Record Client := {
  generateContent : GenerateContentParameters -> Completion (option string)
}.

(** What [JSON.parse] evaluates to. On [null] the access [result.points]
    raises a TypeError; on anything else the two fields are read, each
    possibly undefined ([None]). *)
Inductive JsonValue :=
| JsonNull
| JsonObject (points : option Number) (reasoning : option string).

(** What the adapter takes from its surroundings. *)
Record Runtime := {
  (** [process.env], when [process] is defined, with its [API_KEY]. *)
  process_env : option (option string);
  (** [new GoogleGenAI({ apiKey })] *)
  GoogleGenAI : string -> Completion Client;
  JSON_parse : string -> Completion JsonValue;
  Math_random : Random
}.

Record AiVote := {
  points : Z;
  reasoning : option string
}.

(** [getClient], on the module variable [aiClient]: the client (or null)
    and the new value of the variable. *)
Definition getClient (rt : Runtime) (aiClient : option Client)
  : option Client * option Client :=
  match aiClient with
  | Some c => (Some c, aiClient)
  | None =>
    let apiKey :=
      match process_env rt with
      | Some (Some k) => k
      | _ => ""
      end in
    if negb (truthy apiKey) then (None, aiClient)
    else
      match GoogleGenAI rt apiKey with
      | Normal c => (Some c, Some c)
      | Throw _ => (None, aiClient)
      end
  end.

Definition cards : list Z := [1; 2; 3; 5; 8; 13; 21].
Definition validPoints : list Z := [1; 2; 3; 5; 8; 13; 21].

(** [points] in arithmetic: [undefined] becomes [NaN]. *)
Definition toNumber (points : option Number) : Number := default PrimFloat.nan points.

(** [validPoints.includes(points)] *)
Definition includes (l : list Z) (points : option Number) : bool :=
  match points with
  | Some p => existsb (fun m => num_eq (number m) p) l
  | None => false
  end.

(** The callback of the reduction: the current member replaces the
    previous one only when it is strictly closer to [points], as the
    doubles compare. *)
Definition closer (points : option Number) (prev curr : Z) : Z :=
  if num_lt (Math_abs (num_sub (number curr) (toNumber points)))
            (Math_abs (num_sub (number prev) (toNumber points)))
  then curr else prev.

(** Lines 96-102: a member of the scale is kept (it is the integer of
    the scale it equals), anything else, [NaN] and [undefined] too, is
    replaced by the reduction. *)
Definition snapPoints (points : option Number) : Completion Z :=
  if includes validPoints points
  then Normal (default 0 (find (fun m => num_eq (number m) (toNumber points)) validPoints))
  else reduce (closer points) validPoints.

Definition no_context_reasoning : string :=
  "I don't have any context on the story, so I'm providing a random estimate to participate.".
Definition offline_reasoning : string :=
  "I'm currently offline (API Key missing), but this looks like a medium effort task.".
Definition trouble_reasoning : string :=
  "I'm having trouble connecting to my brain, but this feels complex.".

Definition prompt (story : Story) (personaName personaRole : string)
  : GenerateContentParameters :=
  {| model := "gemini-3-flash-preview";
     prompt_personaName := personaName;
     prompt_personaRole := personaRole;
     prompt_title := title story;
     prompt_description := description story |}.

Definition generateAiVote (rt : Runtime) (aiClient : option Client)
    (story : Story) (personaName personaRole : string)
  : Completion AiVote * option Client :=
  if negb (truthy (trim (title story))) && negb (truthy (trim (description story)))
  then
    let i := Qfloor (rnd (Math_random rt) * inject_Z (Z.of_nat (length cards))) in
    (Normal {| points := nth (Z.to_nat i) cards 0;
               reasoning := Some no_context_reasoning |},
     aiClient)
  else
    let '(client, aiClient') := getClient rt aiClient in
    match client with
    | None =>
      (Normal {| points := 8; reasoning := Some offline_reasoning |}, aiClient')
    | Some client =>
      (try_catch
         (jsonText ← generateContent client (prompt story personaName personaRole);
          match jsonText with
          | Some text =>
            if truthy text then
              result ← JSON_parse rt text;
              match result with
              | JsonNull => Throw TypeError
              | JsonObject result_points result_reasoning =>
                points ← snapPoints result_points;
                Normal {| points := points; reasoning := result_reasoning |}
              end
            else Throw (Error "No response from Gemini")
          | None => Throw (Error "No response from Gemini")
          end)
         (fun error =>
            Normal {| points := 8; reasoning := Some trouble_reasoning |}),
       aiClient')
    end.

End GeminiService.

(** ** The durable store and its change feed

    The three tables of [supabase/migrations/001_initial_schema.sql], each
    keyed by its primary key [id], with the operations the hook calls and
    the change events the store broadcasts for them. A write that the
    schema refuses (a taken primary key, a missing referenced row) changes
    nothing and reports the error in its result, which the hook never
    reads; no write throws. UNIQUE(room_id, player_id) on votes is left to
    the primary key: every vote row the hook writes has the key
    [room_id-player_id]. *)

Module Rooms.
Record Row := {
  id : string;
  story_title : string;
  story_description : string;
  phase : GamePhase
}.

(** The fields an [update] overwrites; the others are absent. *)
Record Update := {
  set_story_title : option string;
  set_story_description : option string;
  set_phase : option GamePhase
}.

Definition updated (fields : Update) (r : Row) : Row :=
  {| id := id r;
     story_title := default (story_title r) (set_story_title fields);
     story_description := default (story_description r) (set_story_description fields);
     phase := default (phase r) (set_phase fields) |}.
End Rooms.

Module Players.
Record Row := {
  id : string;
  room_id : string;
  name : string;
  type : UserType;
  avatar_url : string;
  persona : option string
}.
End Players.

Module Votes.
Record Row := {
  id : string;
  room_id : string;
  player_id : string;
  value : JsValue;
  reasoning : option string
}.
End Votes.

Module Supabase.

Record Db := {
  rooms_table : gmap string Rooms.Row;
  players_table : gmap string Players.Row;
  votes_table : gmap string Votes.Row
}.

(** A [postgres_changes] payload: the table, the event type, and the new
    row (or the old one, for a DELETE). *)
Inductive Change :=
| rooms_UPDATE (new : Rooms.Row)
| players_INSERT (new : Players.Row)
| players_UPDATE (new : Players.Row)
| players_DELETE (old : Players.Row)
| votes_INSERT (new : Votes.Row)
| votes_UPDATE (new : Votes.Row)
| votes_DELETE (old : Votes.Row).

Definition set_rooms (f : gmap string Rooms.Row -> gmap string Rooms.Row) (db : Db) : Db :=
  {| rooms_table := f (rooms_table db);
     players_table := players_table db;
     votes_table := votes_table db |}.
Definition set_players (f : gmap string Players.Row -> gmap string Players.Row) (db : Db) : Db :=
  {| rooms_table := rooms_table db;
     players_table := f (players_table db);
     votes_table := votes_table db |}.
Definition set_votes (f : gmap string Votes.Row -> gmap string Votes.Row) (db : Db) : Db :=
  {| rooms_table := rooms_table db;
     players_table := players_table db;
     votes_table := f (votes_table db) |}.

(** [from('rooms').select('*').eq('id', rid).maybeSingle()] *)
Definition select_room (rid : string) (db : Db) : option Rooms.Row :=
  rooms_table db !! rid.

(** [from('players').select('*').eq('room_id', rid)] *)
Definition select_players (rid : string) (db : Db) : list Players.Row :=
  filter (fun r => Players.room_id r = rid) (snd <$> map_to_list (players_table db)).

(** [from('votes').select('*').eq('room_id', rid)] *)
Definition select_votes (rid : string) (db : Db) : list Votes.Row :=
  filter (fun r => Votes.room_id r = rid) (snd <$> map_to_list (votes_table db)).

(** [from('rooms').insert(row)]: refused when the key is taken. The hook
    listens to the updates of [rooms] only, so no change is kept. *)
Definition insert_room (row : Rooms.Row) (db : Db) : Db * list Change :=
  match rooms_table db !! Rooms.id row with
  | Some _ => (db, [])
  | None => (set_rooms <[Rooms.id row := row]> db, [])
  end.

(** [from('players').insert(row)]: refused when the key is taken or the
    room is missing. *)
Definition insert_player (row : Players.Row) (db : Db) : Db * list Change :=
  match players_table db !! Players.id row, rooms_table db !! Players.room_id row with
  | None, Some _ => (set_players <[Players.id row := row]> db, [players_INSERT row])
  | _, _ => (db, [])
  end.

(** [from('rooms').update(fields).eq('id', rid)] *)
Definition update_room (fields : Rooms.Update) (rid : string) (db : Db)
  : Db * list Change :=
  match rooms_table db !! rid with
  | Some r =>
    (set_rooms <[rid := Rooms.updated fields r]> db,
     [rooms_UPDATE (Rooms.updated fields r)])
  | None => (db, [])
  end.

(** [from('votes').upsert(row)]: insert, or replace the row of that key;
    refused when the room or the player it references is missing. *)
Definition upsert_vote (row : Votes.Row) (db : Db) : Db * list Change :=
  match rooms_table db !! Votes.room_id row, players_table db !! Votes.player_id row with
  | Some _, Some _ =>
    (set_votes <[Votes.id row := row]> db,
     [match votes_table db !! Votes.id row with
      | Some _ => votes_UPDATE row
      | None => votes_INSERT row
      end])
  | _, _ => (db, [])
  end.

(** [from('votes').delete().eq('room_id', rid)] *)
Definition delete_votes (rid : string) (db : Db) : Db * list Change :=
  (set_votes (filter (fun kr => Votes.room_id kr.2 ≠ rid)) db,
   votes_DELETE <$> select_votes rid db).

(** [from('players').delete().eq('room_id', rid).eq('id', userId)]; the
    votes of the player go with it (ON DELETE CASCADE). *)
Definition delete_player (rid userId : string) (db : Db) : Db * list Change :=
  match players_table db !! userId with
  | Some r =>
    if decide (Players.room_id r = rid)
    then
      let cascade : list Votes.Row :=
        filter (fun r => Votes.player_id r = userId) (snd <$> map_to_list (votes_table db)) in
      (set_players (delete userId)
         (set_votes (filter (fun kr => Votes.player_id kr.2 ≠ userId)) db),
       ((votes_DELETE <$> cascade) ++ [players_DELETE r])%list)
    else (db, [])
  | None => (db, [])
  end.

(** The writes the hook sends. *)
Inductive Request :=
| InsertRoom (row : Rooms.Row)
| InsertPlayer (row : Players.Row)
| UpdateRoom (fields : Rooms.Update) (rid : string)
| UpsertVote (row : Votes.Row)
| DeleteVotes (rid : string)
| DeletePlayer (rid userId : string).

Definition execute (r : Request) : Db -> Db * list Change :=
  match r with
  | InsertRoom row => insert_room row
  | InsertPlayer row => insert_player row
  | UpdateRoom fields rid => update_room fields rid
  | UpsertVote row => upsert_vote row
  | DeleteVotes rid => delete_votes rid
  | DeletePlayer rid userId => delete_player rid userId
  end.

End Supabase.
Import Supabase.

(** ** hooks/useSupabaseRoom.tsx *)

Module UseSupabaseRoom.

Record RoomState := {
  state_roomId : string;
  story : Story;
  phase : GamePhase;
  players : list Player;
  votes : gmap string Vote
}.

(** What a client holds: the tables it talks to, the module variable of
    the adapter, and the three pieces of React state of the hook. *)
Record World := {
  db : Db;
  aiClient : option GeminiService.Client;
  currentUser : option Player;
  roomState : RoomState;
  isProcessingAI : bool
}.

Inductive Effect :=
| Sent (r : Request)
| Broadcast (c : Change)
| Call_generateAiVote (story : Story) (personaName personaRole : string).

Definition Io (A : Type) : Type := World -> Completion A * World * list Effect.

#[global] Instance Io_ret : MRet Io := fun A a w => (Normal a, w, []).
#[global] Instance Io_bind : MBind Io := fun A B k m w =>
  let '(r, w1, log1) := m w in
  match r with
  | Normal a => let '(r2, w2, log2) := k a w1 in (r2, w2, (log1 ++ log2)%list)
  | Throw e => (Throw e, w1, log1)
  end.

Definition skip : Io unit := mret tt.

Definition setRoomState (f : RoomState -> RoomState) : Io unit := fun w =>
  (Normal tt,
   {| db := db w; aiClient := aiClient w; currentUser := currentUser w;
      roomState := f (roomState w); isProcessingAI := isProcessingAI w |},
   []).

Definition setCurrentUser (u : Player) : Io unit := fun w =>
  (Normal tt,
   {| db := db w; aiClient := aiClient w; currentUser := Some u;
      roomState := roomState w; isProcessingAI := isProcessingAI w |},
   []).

Definition setIsProcessingAI (b : bool) : Io unit := fun w =>
  (Normal tt,
   {| db := db w; aiClient := aiClient w; currentUser := currentUser w;
      roomState := roomState w; isProcessingAI := b |},
   []).

(** The state as the closure of the current render sees it. *)
Definition render : Io World := fun w => (Normal w, w, []).

(** [await supabase.from(..)...] for a read and for a write; the log keeps
    the write sent and the changes the store broadcasts for it. *)
Definition select {A} (q : Db -> A) : Io A := fun w => (Normal (q (db w)), w, []).

Definition write (r : Request) : Io unit := fun w =>
  let '(db', changes) := execute r (db w) in
  (Normal tt,
   {| db := db'; aiClient := aiClient w; currentUser := currentUser w;
      roomState := roomState w; isProcessingAI := isProcessingAI w |},
   Sent r :: (Broadcast <$> changes)).

(** [await generateAiVote(story, name, role)] *)
Definition generateAiVote (rt : GeminiService.Runtime) (story : Story)
    (personaName personaRole : string) : Io GeminiService.AiVote := fun w =>
  let '(r, aiClient') :=
    GeminiService.generateAiVote rt (aiClient w) story personaName personaRole in
  (r,
   {| db := db w; aiClient := aiClient'; currentUser := currentUser w;
      roomState := roomState w; isProcessingAI := isProcessingAI w |},
   [Call_generateAiVote story personaName personaRole]).

Definition initialRoomState : RoomState :=
  {| state_roomId := ""; story := {| title := ""; description := "" |};
     phase := SETUP; players := []; votes := ∅ |}.

Definition player_of_row (p : Players.Row) : Player :=
  {| id := Players.id p;
     name := Players.name p;
     type := Players.type p;
     avatarUrl := Players.avatar_url p;
     persona := Players.persona p |}.

Definition vote_of_row (v : Votes.Row) : Vote :=
  {| playerId := Votes.player_id v;
     value := Votes.value v;
     reasoning := Votes.reasoning v |}.

Section Hook.

Variable roomId : string.

(** The three [postgres_changes] callbacks of the subscription, as the
    updater each hands to [setRoomState]. *)
Definition onChange (payload : Change) (prev : RoomState) : RoomState :=
  match payload with
  | rooms_UPDATE newRoom =>
    {| state_roomId := roomId;
       story := {| title := or_else (Rooms.story_title newRoom) "";
                   description := or_else (Rooms.story_description newRoom) "" |};
       (* [newRoom.phase || prev.phase]: a phase is a non-empty string *)
       phase := Rooms.phase newRoom;
       players := players prev;
       votes := votes prev |}
  | players_INSERT newPlayer =>
    {| state_roomId := state_roomId prev;
       story := story prev;
       phase := phase prev;
       players := players prev ++ [player_of_row newPlayer];
       votes := votes prev |}
  | players_DELETE old =>
    let deletedId := Players.id old in
    {| state_roomId := state_roomId prev;
       story := story prev;
       phase := phase prev;
       players := filter (fun p => id p ≠ deletedId) (players prev);
       votes := filter (fun kv => playerId kv.2 ≠ deletedId) (votes prev) |}
  | players_UPDATE _ => prev
  | votes_INSERT newVote | votes_UPDATE newVote =>
    {| state_roomId := state_roomId prev;
       story := story prev;
       phase := phase prev;
       players := players prev;
       votes := <[Votes.player_id newVote := vote_of_row newVote]> (votes prev) |}
  | votes_DELETE old =>
    let deletedPlayerId := Votes.player_id old in
    {| state_roomId := state_roomId prev;
       story := story prev;
       phase := phase prev;
       players := players prev;
       votes := delete deletedPlayerId (votes prev) |}
  end.

Definition emptyRoom (rid : string) : Rooms.Row :=
  {| Rooms.id := rid; Rooms.story_title := ""; Rooms.story_description := "";
     Rooms.phase := SETUP |}.

Definition joinRoom (rid userId : string) (user : Player) : Io unit :=
  existingRoom ← select (select_room rid);
  (if existingRoom is Some _ then skip else write (InsertRoom (emptyRoom rid)));;
  write (InsertPlayer
    {| Players.id := userId;
       Players.room_id := rid;
       Players.name := name user;
       Players.type := type user;
       Players.avatar_url := avatarUrl user;
       Players.persona := persona user |}).

Definition leaveRoom (rid userId : string) : Io unit :=
  write (DeletePlayer rid userId).

Definition loadRoomData (rid userId : string) (userData : Player) : Io unit :=
  roomData ← select (select_room rid);
  match roomData with
  | Some roomData =>
    setRoomState (fun prev =>
      {| state_roomId := rid;
         story := {| title := or_else (Rooms.story_title roomData) "";
                     description := or_else (Rooms.story_description roomData) "" |};
         phase := Rooms.phase roomData;
         players := players prev;
         votes := votes prev |})
  | None => write (InsertRoom (emptyRoom rid))
  end;;
  playersData ← select (select_players rid);
  let players' := player_of_row <$> playersData in
  let humanPlayers := filter (fun p => type p = HUMAN) players' in
  (if find (fun p => bool_decide (id p = userId)) humanPlayers is Some _ then skip
   else joinRoom rid userId userData);;
  setRoomState (fun prev =>
    {| state_roomId := state_roomId prev; story := story prev; phase := phase prev;
       players := players'; votes := votes prev |});;
  votesData ← select (select_votes rid);
  let votes' :=
    fold_left (fun (acc : gmap string Vote) v => <[Votes.player_id v := vote_of_row v]> acc)
      votesData ∅ in
  setRoomState (fun prev =>
    {| state_roomId := state_roomId prev; story := story prev; phase := phase prev;
       players := players prev; votes := votes' |}).

(** The mount effect does not await [loadRoomData], and the subscription
    is open while it runs, so a change can be delivered between two of its
    steps. Its steps up to the return of [joinRoom] (lines 161-201), with
    what it fetched for the roster, and its steps from line 203 on. *)
Definition loadRoomData_join (rid userId : string) (userData : Player)
  : Io (list Player) :=
  roomData ← select (select_room rid);
  match roomData with
  | Some roomData =>
    setRoomState (fun prev =>
      {| state_roomId := rid;
         story := {| title := or_else (Rooms.story_title roomData) "";
                     description := or_else (Rooms.story_description roomData) "" |};
         phase := Rooms.phase roomData;
         players := players prev;
         votes := votes prev |})
  | None => write (InsertRoom (emptyRoom rid))
  end;;
  playersData ← select (select_players rid);
  let players' := player_of_row <$> playersData in
  let humanPlayers := filter (fun p => type p = HUMAN) players' in
  (if find (fun p => bool_decide (id p = userId)) humanPlayers is Some _ then skip
   else joinRoom rid userId userData);;
  mret players'.

Definition loadRoomData_rest (rid : string) (players' : list Player) : Io unit :=
  setRoomState (fun prev =>
    {| state_roomId := state_roomId prev; story := story prev; phase := phase prev;
       players := players'; votes := votes prev |});;
  votesData ← select (select_votes rid);
  let votes' :=
    fold_left (fun (acc : gmap string Vote) v => <[Votes.player_id v := vote_of_row v]> acc)
      votesData ∅ in
  setRoomState (fun prev =>
    {| state_roomId := state_roomId prev; story := story prev; phase := phase prev;
       players := players prev; votes := votes' |}).

(** The mount effect, once the participant id [userId] is resolved from
    local storage. *)
Definition mount (userId username : string) : Io unit :=
  if negb (truthy roomId) || negb (truthy username) then skip
  else
    let currentUserData :=
      {| id := userId; name := username; type := HUMAN;
         avatarUrl := "https://picsum.photos/100/100?random=" ++ userId;
         persona := None |} in
    setCurrentUser currentUserData;;
    loadRoomData roomId userId currentUserData.

Definition updateStory (story : Story) : Io unit :=
  write (UpdateRoom
    {| Rooms.set_story_title := Some (title story);
       Rooms.set_story_description := Some (description story);
       Rooms.set_phase := None |}
    roomId).

Definition updatePhase (phase' : GamePhase) : Io unit :=
  setRoomState (fun prev =>
    {| state_roomId := state_roomId prev;
       story := story prev;
       phase := phase';
       players := players prev;
       votes := if decide (phase' = VOTING) then ∅ else votes prev |});;
  write (UpdateRoom
    {| Rooms.set_story_title := None;
       Rooms.set_story_description := None;
       Rooms.set_phase := Some phase' |}
    roomId);;
  if decide (phase' = VOTING) then write (DeleteVotes roomId) else skip.

(** [for (const x of l) { await f(x) }] *)
Fixpoint forEach {A} (f : A -> Io unit) (l : list A) : Io unit :=
  match l with
  | [] => skip
  | x :: rest => f x;; forEach f rest
  end.

(** [addAiPlayers]; [shuffled] is the catalog as the random sort left
    it. *)
Definition addAiPlayers (shuffled : list AiPersona) : Io unit :=
  w ← render;
  if bool_decide (currentUser w = None) || negb (truthy roomId) then skip
  else
    let selected := take 3 shuffled in
    let existingIds := id <$> players (roomState w) in
    forEach
      (fun persona =>
         if bool_decide (persona_id persona ∈ existingIds) then skip
         else
           write (InsertPlayer
             {| Players.id := persona_id persona;
                Players.room_id := roomId;
                Players.name := persona_name persona;
                Players.type := AI;
                Players.avatar_url :=
                  "https://picsum.photos/100/100?random=" ++ avatarSeed persona;
                Players.persona := Some (persona_description persona) |}))
      selected.

Definition aiPlayersOf (s : RoomState) : list Player :=
  filter (fun p => type p = AI) (players s).

(** The body of [for (const player of aiPlayers)], from the player at
    position [i]; [rt i] is what the adapter finds around it at its call
    for that player. The pause before each call is not modelled. *)
Fixpoint forAiPlayers (rt : nat -> GeminiService.Runtime) (story : Story)
    (i : nat) (aiPlayers : list Player) : Io unit :=
  match aiPlayers with
  | [] => skip
  | player :: rest =>
    match find (fun p => bool_decide (persona_id p = id player)) AI_PERSONAS with
    | None => forAiPlayers rt story (S i) rest
    | Some aiPersona =>
      result ← generateAiVote (rt i) story (persona_name aiPersona) (role aiPersona);
      write (UpsertVote
        {| Votes.id := roomId ++ "-" ++ id player;
           Votes.room_id := roomId;
           Votes.player_id := id player;
           Votes.value := JsString (toString (JsNumber (GeminiService.points result)));
           Votes.reasoning := GeminiService.reasoning result |});;
      forAiPlayers rt story (S i) rest
    end
  end.

(** [triggerAiVotes], on the [roomState] its closure captured. *)
Definition triggerAiVotes (rt : nat -> GeminiService.Runtime) (s : RoomState) : Io unit :=
  if decide (phase s ≠ VOTING) then skip
  else
    let aiPlayers := aiPlayersOf s in
    if decide (length aiPlayers = 0%nat) then skip
    else
      setIsProcessingAI true;;
      forAiPlayers rt (story s) 0 aiPlayers;;
      setIsProcessingAI false.

(** The condition under which the scheduling effect calls
    [triggerAiVotes]. *)
Definition firesAiVotes (w : World) : bool :=
  let s := roomState w in
  bool_decide (phase s = VOTING)
  && (let aiPlayers := aiPlayersOf s in
      bool_decide (0 < length aiPlayers)%nat && negb (isProcessingAI w)
      && (let aiIds := id <$> aiPlayers in
          let hasAiVoted := forallb (fun i => truthy_at (votes s) i) aiIds in
          negb hasAiVoted)).

Definition aiEffect (rt : nat -> GeminiService.Runtime) : Io unit :=
  w ← render;
  if firesAiVotes w then triggerAiVotes rt (roomState w) else skip.

Definition handleVote (value : JsValue) : Io unit :=
  w ← render;
  match currentUser w with
  | None => skip
  | Some currentUser =>
    if decide (phase (roomState w) ≠ VOTING) then skip
    else
      write (UpsertVote
        {| Votes.id := roomId ++ "-" ++ id currentUser;
           Votes.room_id := roomId;
           Votes.player_id := id currentUser;
           Votes.value := JsString (toString value);
           Votes.reasoning := None |})
  end.

Definition allVoted (s : RoomState) : bool :=
  bool_decide (0 < length (players s))%nat
  && forallb (fun p => truthy_at (votes s) (id p)) (players s).

(** What a client can do, and what can happen to it. *)
Inductive Action :=
| Mount (userId username : string)
| UpdateStory (story : Story)
| UpdatePhase (phase : GamePhase)
| AddAiPlayers (shuffled : list AiPersona)
| HandleVote (value : JsValue)
| AiEffect (rt : nat -> GeminiService.Runtime)
| Unmount (userId : string).

Definition perform (a : Action) : Io unit :=
  match a with
  | Mount userId username => mount userId username
  | UpdateStory story => updateStory story
  | UpdatePhase phase => updatePhase phase
  | AddAiPlayers shuffled => addAiPlayers shuffled
  | HandleVote value => handleVote value
  | AiEffect rt => aiEffect rt
  | Unmount userId => leaveRoom roomId userId
  end.

(** The change feed hands each change to the callbacks, in order. *)
Definition changesOf (log : list Effect) : list Change :=
  omap (fun e => if e is Broadcast c then Some c else None) log.

Definition deliver (changes : list Change) (s : RoomState) : RoomState :=
  fold_left (fun s c => onChange c s) changes s.

Definition withRoomState (s : RoomState) (w : World) : World :=
  {| db := db w; aiClient := aiClient w; currentUser := currentUser w;
     roomState := s; isProcessingAI := isProcessingAI w |}.

Definition withDb (d : Db) (w : World) : World :=
  {| db := d; aiClient := aiClient w; currentUser := currentUser w;
     roomState := roomState w; isProcessingAI := isProcessingAI w |}.

(** An operation followed by the echo of its own writes. *)
Definition andEcho (m : Io unit) (w : World) : World :=
  let '(_, w', log) := m w in
  withRoomState (deliver (changesOf log) (roomState w')) w'.

(** The mount effect when the echo of its own writes is delivered as soon
    as [joinRoom] returns, before line 203 runs. *)
Definition mount_echo_first (userId username : string) (w : World) : World :=
  if negb (truthy roomId) || negb (truthy username) then w
  else
    let currentUserData :=
      {| id := userId; name := username; type := HUMAN;
         avatarUrl := "https://picsum.photos/100/100?random=" ++ userId;
         persona := None |} in
    let '(r, w1, log1) :=
      (setCurrentUser currentUserData;;
       loadRoomData_join roomId userId currentUserData) w in
    match r with
    | Normal players' =>
      let echoed := withRoomState (deliver (changesOf log1) (roomState w1)) w1 in
      (loadRoomData_rest roomId players' echoed).1.2
    | Throw _ => w1
    end.

(** The worlds a client goes through: it starts with the initial state of
    the hook over any tables; it performs an action; a change arrives
    from the feed (its own or of another client); another client writes
    to the tables. *)
Inductive reachable : World -> Prop :=
| reach_start d c :
    reachable {| db := d; aiClient := c; currentUser := None;
                 roomState := initialRoomState; isProcessingAI := false |}
| reach_perform w a :
    reachable w -> reachable (perform a w).1.2
| reach_change w c :
    reachable w -> reachable (withRoomState (onChange c (roomState w)) w)
| reach_remote w d :
    reachable w -> reachable (withDb d w).

End Hook.

End UseSupabaseRoom.

(** ** Properties stated about the code *)

Module Spec.

Import GeminiService.

(** The topic gives the adapter something to estimate: the title or the
    description is not empty once trimmed. *)
Definition has_context (story : Story) : bool :=
  truthy (trim (title story)) || truthy (trim (description story)).

(** The topic has a character that no trimming removes (an ASCII
    character that is not white space), in its title or its description. *)
Definition visible (story : Story) : bool :=
  has_visible (title story) || has_visible (description story).



(** The seven subtractions [m - points] of the reduction do not round:
    each result is finite and its value is the difference of the values,
    [q] being the value of [points]. *)
Definition exact_differences (p : Number) (q : Q) : bool :=
  forallb (fun m => has_value (num_sub (number m) p) (inject_Z m - q)) validPoints.



Import UseSupabaseRoom.

(** Every estimate sits under the id of the participant it names. *)
Definition votes_keyed (m : gmap string Vote) : Prop :=
  forall k v, m !! k = Some v -> playerId v = k.

(** No participant is named by two entries of the estimate map. *)
Definition one_estimate_per_participant (m : gmap string Vote) : Prop :=
  forall k1 k2 v1 v2,
    m !! k1 = Some v1 -> m !! k2 = Some v2 -> playerId v1 = playerId v2 -> k1 = k2.

(** An operation keeps a property of the local projection. *)
Definition preserves (P : RoomState -> Prop) {A} (m : Io A) : Prop :=
  forall w, P (roomState w) -> P (roomState (m w).1.2).

(** The row a vote of [value] by [playerId] is upserted as. *)
Definition castRow (roomId playerId : string) (value : JsValue)
    (reasoning : option string) : Votes.Row :=
  {| Votes.id := roomId ++ "-" ++ playerId;
     Votes.room_id := roomId;
     Votes.player_id := playerId;
     Votes.value := JsString (toString value);
     Votes.reasoning := reasoning |}.

(** The writes an operation sent, in order. *)
Definition requests (log : list Effect) : list Request :=
  omap (fun e => if e is Sent r then Some r else None) log.

(** The fields [update({ phase })] and
    [update({ story_title, story_description })] carry. *)
Definition phaseOnly (phase : GamePhase) : Rooms.Update :=
  {| Rooms.set_story_title := None;
     Rooms.set_story_description := None;
     Rooms.set_phase := Some phase |}.

Definition storyOnly (story : Story) : Rooms.Update :=
  {| Rooms.set_story_title := Some (title story);
     Rooms.set_story_description := Some (description story);
     Rooms.set_phase := None |}.

Definition is_string (v : JsValue) : bool :=
  if v is JsString _ then true else false.

(** The vote values an effect carries to the store or back from it are
    strings. *)
Definition carries_strings (e : Effect) : Prop :=
  match e with
  | Sent (UpsertVote row)
  | Broadcast (votes_INSERT row)
  | Broadcast (votes_UPDATE row) => is_string (Votes.value row) = true
  | _ => True
  end.

(** Every effect an operation logs satisfies [Q]. *)
Definition logs_only (Q : Effect -> Prop) {A} (m : Io A) : Prop :=
  forall w, Forall Q (m w).2.

(** Every write an effect sends satisfies [R]. *)
Definition sends (R : Request -> Prop) (e : Effect) : Prop :=
  if e is Sent r then R r else True.

(** The vote writes an action may send: a vote of the current user
    carries [value.toString()], a vote of the scheduler the decimal form
    of the member of the scale the adapter chose, and no other action
    writes a vote. *)
Definition castBy (roomId : string) (a : Action) (r : Request) : Prop :=
  match a with
  | HandleVote value => exists u, r = UpsertVote (castRow roomId u value None)
  | AiEffect _ =>
    exists u n reasoning,
      n ∈ validPoints /\ r = UpsertVote (castRow roomId u (JsNumber n) reasoning)
  | _ => forall row, r <> UpsertVote row
  end.





End Spec.

(** ** Concrete inputs *)

Module Examples.

Import GeminiService.

Definition random0 : Random := {| rnd := 0; rnd_range := eq_refl |}.

(** A client that answers every call with the same text. *)
Definition answering (text : option string) : Client :=
  {| generateContent := fun _ => Normal text |}.

(** A runtime with the given [API_KEY], whose oracle answers [text],
    which parses to [json]. *)
Definition runtime (key : option string) (text : string) (json : JsonValue) : Runtime :=
  {| process_env := Some key;
     GoogleGenAI := fun _ => Normal (answering (Some text));
     JSON_parse := fun _ => Normal json;
     Math_random := random0 |}.

Definition login_story : Story :=
  {| title := "Implement User Authentication"; description := "" |}.

Definition blank_story : Story := {| title := " "; description := "" |}.

Import UseSupabaseRoom.

Definition emptyDb : Db :=
  {| rooms_table := ∅; players_table := ∅; votes_table := ∅ |}.

Definition start : World :=
  {| db := emptyDb; aiClient := None; currentUser := None;
     roomState := initialRoomState; isProcessingAI := false |}.

(** Ann opens room R1, and the insertion of her row is echoed. *)
Definition joined : World := andEcho "R1" (mount "R1" "A" "Ann") start.

(** Ann starts the round. *)
Definition voting : World := andEcho "R1" (updatePhase "R1" VOTING) joined.

Definition ann : Player :=
  {| id := "A"; name := "Ann"; type := HUMAN;
     avatarUrl := "https://picsum.photos/100/100?random=A"; persona := None |}.

Definition annRow : Players.Row :=
  {| Players.id := "A"; Players.room_id := "R1"; Players.name := "Ann";
     Players.type := HUMAN;
     Players.avatar_url := "https://picsum.photos/100/100?random=A";
     Players.persona := None |}.

Definition vote (i : string) (v : string) : Vote :=
  {| playerId := i; value := JsString v; Types.reasoning := None |}.

(** Ann writes the login story, adds the first three personas of the
    catalog (Sarah, Mike and Alex) and starts the round. *)
Definition staffed : World :=
  andEcho "R1" (updatePhase "R1" VOTING)
    (andEcho "R1" (addAiPlayers "R1" AI_PERSONAS)
       (andEcho "R1" (updateStory "R1" login_story) joined)).

(** Sarah's vote of 13 is in the store and has been delivered; Mike and
    Alex have not voted. *)
Definition halfVoted : World :=
  andEcho "R1"
    (write (UpsertVote (Spec.castRow "R1" "ai-senior" (JsNumber 13) None)))
    staffed.

Definition offline : nat -> Runtime := fun _ => runtime None "" JsonNull.

(** The feed delivers the insertion of Ann, her vote, and the vote of
    Bob, whose own insertion it has not delivered. *)
Definition strayVote : RoomState :=
  deliver "R1"
    [players_INSERT annRow;
     votes_INSERT (Spec.castRow "R1" "A" (JsNumber 5) None);
     votes_INSERT (Spec.castRow "R1" "B" (JsNumber 3) None)]
    initialRoomState.

(** The feed delivers the insertion of Ann twice, and her vote. *)
Definition twiceAnn : RoomState :=
  deliver "R1"
    [players_INSERT annRow;
     players_INSERT annRow;
     votes_INSERT (Spec.castRow "R1" "A" (JsNumber 5) None)]
    initialRoomState.

(** Ann picks the card 5. *)
Definition voted : World := andEcho "R1" (handleVote "R1" (JsNumber 5)) voting.

End Examples.

(** ** Local storage: the participant id and the display name

    [localStorage] is a map from keys to strings; [getItem] of a missing
    key is null. *)

Module LocalStorage.

(** Lines 39-44 of the mount effect of [useSupabaseRoom]: the id kept for
    this room, or else [generated] (what [generateId()] returns), which
    is then kept. An empty string is falsy, as null is. *)
Definition resolveUserId (roomId generated : string) (localStorage : gmap string string)
  : string * gmap string string :=
  let key := "poker_user_id_" ++ roomId in
  match localStorage !! key with
  | Some userId =>
    if truthy userId then (userId, localStorage)
    else (generated, <[key := generated]> localStorage)
  | None => (generated, <[key := generated]> localStorage)
  end.

(** [useUsername]: the effect that loads the saved name over the initial
    state [''], and [saveUsername]. *)
Definition loadUsername (localStorage : gmap string string) : string :=
  match localStorage !! "poker_username" with
  | Some saved => if truthy saved then saved else ""
  | None => ""
  end.

Definition saveUsername (name : string) (localStorage : gmap string string)
  : string * gmap string string :=
  (name, <["poker_username" := name]> localStorage).

End LocalStorage.

(** ** components/UsernameModal.tsx *)

Module UsernameModal.

(** What [handleSubmit] ends with; names are strings of ASCII characters,
    whose [length] is their number of characters. *)
Inductive Submitted :=
| setError (message : string)
| onSave (name : string).

Definition handleSubmit (username : string) : Submitted :=
  if (String.length (trim username) <? 2)%nat then
    setError "Name must be at least 2 characters"
  else if (20 <? String.length (trim username))%nat then
    setError "Name must be less than 20 characters"
  else onSave (trim username).

End UsernameModal.

(** ** components/ResultsChart.tsx: the tally of the votes *)

Module ResultsChart.

Import GeminiService.

(** The five variables the [forEach] over the vote values updates;
    [dataMap] holds the own properties of the object, which is where the
    loop finds its counts as long as no key names a property inherited
    from [Object.prototype]. *)
Record Tally := {
  dataMap : gmap string nat;
  total : Number;
  count : nat;
  maxFreq : nat;
  consensusValue : string
}.

Definition initialTally : Tally :=
  {| dataMap := ∅; total := PrimFloat.zero; count := 0; maxFreq := 0;
     consensusValue := "" |}.

Definition num_add (a b : Number) : Number := PrimFloat.add a b.

(** The body of the [forEach]; [parse] is the conversion [Number(val)]. *)
Definition tallyVote (parse : JsValue -> Number) (t : Tally) (val : JsValue) : Tally :=
  if decide (val = JsString "?") then t
  else
    let numVal := parse val in
    let key := toString val in
    let freq := (default 0%nat (dataMap t !! key) + 1)%nat in
    let bigger := (maxFreq t <? freq)%nat in
    {| dataMap := <[key := freq]> (dataMap t);
       total := num_add (total t) numVal;
       count := S (count t);
       maxFreq := if bigger then freq else maxFreq t;
       consensusValue := if bigger then key else consensusValue t |}.

(** [Object.values(votes).map(v => v.value)], tallied. *)
Definition tally (parse : JsValue -> Number) (voteValues : list JsValue) : Tally :=
  fold_left (tallyVote parse) voteValues initialTally.

End ResultsChart.

(** ** App.tsx: which card of the deck is shown selected *)

Module App.

Import UseSupabaseRoom.

(** [roomState.votes[currentUser?.id]?.value === value]; without a
    current user the key looked up is the string of [undefined]. Strict
    equality: a number and a string are never equal. *)
Definition selected (currentUser : option Player) (s : RoomState) (value : JsValue)
  : bool :=
  let key := if currentUser is Some u then id u else "undefined" in
  match votes s !! key with
  | None => false
  | Some vote => bool_decide (Types.value vote = value)
  end.

End App.

(** ** Further properties stated about the code *)

Module SpecMore.

Import UseSupabaseRoom.

(** The values that count in the tally: all but the card "?". *)
Definition counted (voteValues : list JsValue) : list JsValue :=
  filter (fun v => v ≠ JsString "?") voteValues.

(** How many counted values print as [key]. *)
Definition frequency (key : string) (voteValues : list JsValue) : nat :=
  length (filter (fun v => toString v = key) (counted voteValues)).

(** The participant row [addAiPlayers] inserts for a persona. *)
Definition personaRow (roomId : string) (persona : AiPersona) : Players.Row :=
  {| Players.id := persona_id persona;
     Players.room_id := roomId;
     Players.name := persona_name persona;
     Players.type := AI;
     Players.avatar_url := "https://picsum.photos/100/100?random=" ++ avatarSeed persona;
     Players.persona := Some (persona_description persona) |}.

(** The human participant the mount effect builds for [userId]. *)
Definition human (userId username : string) : Player :=
  {| id := userId; name := username; type := HUMAN;
     avatarUrl := "https://picsum.photos/100/100?random=" ++ userId;
     persona := None |}.

(** The row [joinRoom] inserts for a participant. *)
Definition playerRow (roomId : string) (user : Player) : Players.Row :=
  {| Players.id := id user;
     Players.room_id := roomId;
     Players.name := name user;
     Players.type := type user;
     Players.avatar_url := avatarUrl user;
     Players.persona := persona user |}.

(** The participants table is keyed by the primary key of its rows. *)
Definition players_by_id (d : Db) : Prop :=
  forall k r, players_table d !! k = Some r -> Players.id r = k.

(** The estimates the bootstrap seeds the map with. *)
Definition seededVotes (rows : list Votes.Row) : gmap string Vote :=
  fold_left (fun (acc : gmap string Vote) v => <[Votes.player_id v := vote_of_row v]> acc)
    rows ∅.

(** An estimate whose value is the decimal string of a member of the
    scale. *)
Definition scaleEstimate (v : Vote) : Prop :=
  exists n, n ∈ GeminiService.validPoints /\ value v = JsString (toString (JsNumber n)).

(** The user is among the human participants fetched for the room. *)
Definition alreadyJoined (roomId userId : string) (d : Db) : bool :=
  if find (fun p => bool_decide (id p = userId))
          (filter (fun p => type p = HUMAN) (player_of_row <$> select_players roomId d))
     is Some _ then true else false.

End SpecMore.

(** * Proofs *)

(** ** Doubles and their values *)

Section Doubles.

(** The doubles of the kernel are in canonical form ([Prim2SF_valid]):
    the order of their exponents and mantissas is the order of their
    values. *)







End Doubles.

(** ** Characters that trimming keeps *)

Section Visible.

Lemma has_visible_rev_app (s acc : string) :
  has_visible (String.rev_app s acc) = has_visible s || has_visible acc.
Proof.
  revert acc. induction s as [|c s IH]; intros acc; [reflexivity|].
  cbn [String.rev_app has_visible]. rewrite IH. cbn [has_visible].
  rewrite orb_assoc. f_equal. apply orb_comm.
Qed.

Lemma has_visible_rev (s : string) : has_visible (String.rev s) = has_visible s.
Proof. unfold String.rev. rewrite has_visible_rev_app. apply orb_false_r. Qed.

Lemma has_visible_trimStart (s : string) : has_visible (trimStart s) = has_visible s.
Proof.
  induction s as [|c s IH]; [reflexivity|]. cbn [trimStart].
  destruct (is_white_space c) eqn:E; [|reflexivity].
  cbn [has_visible]. unfold is_visible. rewrite E, andb_false_r. exact IH.
Qed.

Lemma has_visible_trim (s : string) : has_visible (trim s) = has_visible s.
Proof.
  unfold trim, trimEnd.
  rewrite has_visible_rev, has_visible_trimStart, has_visible_rev.
  apply has_visible_trimStart.
Qed.

Lemma has_visible_truthy (s : string) : has_visible s = true -> truthy (trim s) = true.
Proof.
  intros H. rewrite <- has_visible_trim in H.
  destruct (trim s); [discriminate H | reflexivity].
Qed.

Lemma visible_has_context (story : Story) :
  Spec.visible story = true -> Spec.has_context story = true.
Proof.
  unfold Spec.visible, Spec.has_context. intros H.
  apply orb_true_iff in H as [H | H]; apply has_visible_truthy in H; rewrite H;
    [reflexivity | apply orb_true_r].
Qed.

End Visible.

(** ** The estimate adapter *)

Section Adapter.

Import GeminiService Spec.

Lemma Qlt_bool_iff (a b : Q) : Qlt_bool a b = true <-> (a < b)%Q.
Proof.
  unfold Qlt_bool. rewrite negb_true_iff. split.
  - intros H. apply Qnot_le_lt. intros Hle.
    apply Qle_bool_iff in Hle. congruence.
  - intros H. destruct (Qle_bool b a) eqn:E; [|reflexivity].
    apply Qle_bool_iff in E. exfalso. exact (Qlt_not_le _ _ H E).
Qed.





Lemma fold_closer_member (points : option Number) (l : list Z) :
  forall x, fold_left (closer points) l x ∈ x :: l.
Proof.
  induction l as [|a l IH]; intros x; cbn [fold_left]; [apply list_elem_of_here|].
  specialize (IH (closer points x a)). apply elem_of_cons in IH as [E | IH].
  - rewrite E. unfold closer. destruct (num_lt _ _);
      [apply list_elem_of_further, list_elem_of_here | apply list_elem_of_here].
  - apply list_elem_of_further, list_elem_of_further, IH.
Qed.


Lemma snapPoints_returns (points : option Number) : exists m, snapPoints points = Normal m.
Proof. unfold snapPoints. destruct (includes validPoints points); eauto. Qed.

(** The adapter returns on every input: nothing it does throws past its
    [catch]. *)
Lemma generateAiVote_returns rt aiClient story personaName personaRole :
  exists v, (generateAiVote rt aiClient story personaName personaRole).1 = Normal v.
Proof.
  unfold generateAiVote.
  destruct (negb (truthy (trim (title story))) && negb (truthy (trim (description story))));
    [eauto|].
  destruct (getClient rt aiClient) as [[client|] aiClient']; [|eauto]. simpl.
  destruct (generateContent client _) as [[text|]|e]; simpl; eauto.
  destruct (truthy text); simpl; eauto.
  destruct (JSON_parse rt text) as [[|points reasoning]|e]; simpl; eauto.
  destruct (snapPoints_returns points) as [m ->]. simpl. eauto.
Qed.

(** Without context the adapter leaves the oracle alone and draws a card
    of the deck: the index computed from [Math.random()] is in range. *)
Lemma generateAiVote_no_context rt aiClient story personaName personaRole :
  has_context story = false ->
  exists m,
    generateAiVote rt aiClient story personaName personaRole
      = (Normal {| points := m; reasoning := Some no_context_reasoning |}, aiClient)
    /\ m ∈ cards.
Proof.
  intros Hctx. unfold has_context in Hctx. apply orb_false_iff in Hctx as [Ht Hd].
  unfold generateAiVote. rewrite Ht, Hd. cbn [negb andb].
  eexists. split; [reflexivity|].
  destruct (Math_random rt) as [r Hr]. cbn [rnd].
  change (Z.of_nat (length cards)) with 7.
  apply andb_true_iff in Hr as [H0 H1].
  apply Qle_bool_iff in H0. apply Qlt_bool_iff in H1.
  set (i := Qfloor (r * inject_Z 7)).
  assert (0 <= i < 7) as Hi.
  { split.
    - change 0 with (Qfloor (inject_Z 0)). apply Qfloor_resp_le.
      change (inject_Z 0) with (0 * inject_Z 7)%Q.
      apply Qmult_le_compat_r; [exact H0 | discriminate].
    - apply Z.lt_nge. intros Hge.
      assert (inject_Z 7 <= r * inject_Z 7)%Q as Hle.
      { eapply Qle_trans; [|apply (Qfloor_le (r * inject_Z 7))].
        rewrite <- Zle_Qle. exact Hge. }
      apply (Qlt_not_le (r * inject_Z 7) (inject_Z 7)); [|exact Hle].
      rewrite <- (Qmult_1_l (inject_Z 7)) at 2.
      apply Qmult_lt_compat_r; [reflexivity | exact H1]. }
  apply list_elem_of_In, nth_In. change (length cards) with 7%nat. lia.
Qed.

Lemma snapPoints_in_scale (points : option Number) (m : Z) :
  snapPoints points = Normal m -> m ∈ validPoints.
Proof.
  unfold snapPoints. destruct (includes validPoints points) eqn:E.
  - destruct points as [p|]; [|discriminate E]. unfold includes in E.
    change (toNumber (Some p)) with p.
    destruct (find (fun m0 => num_eq (number m0) p) validPoints) as [x|] eqn:F.
    + intros [= <-]. apply find_some in F as [F _]. apply list_elem_of_In, F.
    + exfalso. apply existsb_exists in E as (x & Hx & Hxp).
      pose proof (find_none _ _ F x Hx) as Hno. cbv beta in Hno. congruence.
  - intros [= <-]. apply (fold_closer_member points [2; 3; 5; 8; 13; 21] 1).
Qed.

(** Whatever the oracle answers, the adapter's estimate is a member of
    the scale. *)
Lemma generateAiVote_in_scale rt aiClient story personaName personaRole v :
  (generateAiVote rt aiClient story personaName personaRole).1 = Normal v ->
  points v ∈ validPoints.
Proof.
  destruct (has_context story) eqn:Hctx.
  - unfold generateAiVote. unfold has_context in Hctx.
    replace (negb (truthy (trim (title story))) && negb (truthy (trim (description story))))
      with false
      by (apply orb_true_iff in Hctx as [-> | ->]; simpl;
          [|rewrite andb_false_r]; reflexivity).
    assert (H8 : 8 ∈ validPoints) by (apply list_elem_of_In; simpl; tauto).
    destruct (getClient rt aiClient) as [[client|] aiClient']; simpl;
      [|intros [= <-]; exact H8].
    destruct (generateContent client _) as [[text|]|e]; simpl;
      try (intros [= <-]; exact H8).
    destruct (truthy text); simpl; try (intros [= <-]; exact H8).
    destruct (JSON_parse rt text) as [[|result_points reasoning]|e]; simpl;
      try (intros [= <-]; exact H8).
    destruct (snapPoints result_points) as [m|e] eqn:E; simpl;
      intros [= <-]; [|exact H8].
    exact (snapPoints_in_scale _ _ E).
  - destruct (generateAiVote_no_context rt aiClient story personaName personaRole Hctx)
      as (m & -> & Hm).
    intros [= <-]. exact Hm.
Qed.

Lemma not_context_guard (story : Story) :
  has_context story = true ->
  negb (truthy (trim (title story))) && negb (truthy (trim (description story))) = false.
Proof.
  unfold has_context. intros H. apply orb_true_iff in H as [-> | ->]; simpl;
    [|rewrite andb_false_r]; reflexivity.
Qed.

(** The adapter reached its parsing lines: what it returns is what
    [snapPoints] makes of the parsed points, with the parsed reasoning. *)
Lemma generateAiVote_parsed
    rt aiClient story personaName personaRole client text pts reasoning m :
  has_context story = true ->
  (getClient rt aiClient).1 = Some client ->
  generateContent client (prompt story personaName personaRole) = Normal (Some text) ->
  truthy text = true ->
  JSON_parse rt text = Normal (JsonObject pts reasoning) ->
  snapPoints pts = Normal m ->
  (generateAiVote rt aiClient story personaName personaRole).1
  = Normal {| points := m; reasoning := reasoning |}.
Proof.
  intros Hctx Hclient Hcall Htext Hparse Hsnap.
  unfold generateAiVote. rewrite (not_context_guard story Hctx).
  destruct (getClient rt aiClient) as [c aiClient']. simpl in Hclient. subst c.
  cbn -[snapPoints]. rewrite Hcall. cbn -[snapPoints]. rewrite Htext, Hparse.
  cbn -[snapPoints]. rewrite Hsnap. reflexivity.
Qed.

End Adapter.

Section AdapterClaims.

Import GeminiService Spec.


(** The answers one expects subtract exactly: every integer from -100 to
    100 is a double whose seven differences with the members of the scale
    are computed without rounding. *)
Lemma small_integers_exact (n : Z) :
  -100 <= n <= 100 ->
  has_value (integer n) (inject_Z n) = true
  /\ exact_differences (integer n) (inject_Z n) = true.
Proof.
  intros Hn.
  assert (Hall : forallb
            (fun n => has_value (integer n) (inject_Z n)
                      && exact_differences (integer n) (inject_Z n))
            (seqZ (-100) 201) = true) by (vm_compute; reflexivity).
  apply andb_true_iff.
  apply (proj1 (forallb_forall _ _) Hall n), list_elem_of_In, elem_of_seqZ. lia.
Qed.






End AdapterClaims.

(** ** The room hook: what the operations keep *)

Section Preservation.

Import Spec UseSupabaseRoom.

Context (P : RoomState -> Prop).

Lemma preserves_ret {A} (a : A) : preserves P (mret a : Io A).
Proof. intros w H. exact H. Qed.

Lemma preserves_bind {A B} (m : Io A) (k : A -> Io B) :
  preserves P m -> (forall a, preserves P (k a)) -> preserves P (m ≫= k).
Proof.
  intros Hm Hk w H. unfold mbind, Io_bind.
  specialize (Hm w H). destruct (m w) as [[[a|e] w1] log1]; simpl in *.
  - specialize (Hk a w1 Hm). destruct (k a w1) as [[r2 w2] log2]. exact Hk.
  - exact Hm.
Qed.

Lemma preserves_setRoomState (f : RoomState -> RoomState) :
  (forall s, P s -> P (f s)) -> preserves P (setRoomState f).
Proof. intros Hf w H. apply Hf, H. Qed.

Lemma preserves_write (r : Request) : preserves P (write r).
Proof. intros w H. unfold write. destruct (execute r (db w)). exact H. Qed.

Lemma preserves_select {A} (q : Db -> A) : preserves P (select q).
Proof. intros w H. exact H. Qed.

Lemma preserves_render : preserves P render.
Proof. intros w H. exact H. Qed.

Lemma preserves_setCurrentUser (u : Player) : preserves P (setCurrentUser u).
Proof. intros w H. exact H. Qed.

Lemma preserves_setIsProcessingAI (b : bool) : preserves P (setIsProcessingAI b).
Proof. intros w H. exact H. Qed.

Lemma preserves_generateAiVote rt story personaName personaRole :
  preserves P (generateAiVote rt story personaName personaRole).
Proof.
  intros w H. unfold generateAiVote.
  destruct (GeminiService.generateAiVote _ _ _ _ _). exact H.
Qed.

End Preservation.

Ltac preserve :=
  repeat first
    [ apply preserves_bind; [|intros ?]
    | apply preserves_ret
    | apply preserves_write
    | apply preserves_select
    | apply preserves_render
    | apply preserves_setCurrentUser
    | apply preserves_setIsProcessingAI
    | apply preserves_generateAiVote
    | match goal with
      | |- Spec.preserves _ (match ?x with _ => _ end) => destruct x
      end ].

Section Keyed.

Import Spec UseSupabaseRoom.

Variable roomId : string.

Local Abbreviation keyed := (fun s : RoomState => votes_keyed (votes s)).

Lemma votes_keyed_empty : votes_keyed ∅.
Proof. intros k v H. rewrite lookup_empty in H. discriminate. Qed.

Lemma votes_keyed_insert (m : gmap string Vote) (row : Votes.Row) :
  votes_keyed m -> votes_keyed (<[Votes.player_id row := vote_of_row row]> m).
Proof.
  intros Hm k v. rewrite lookup_insert. case_decide as E.
  - intros [= <-]. exact E.
  - apply Hm.
Qed.

Lemma votes_keyed_fold (rows : list Votes.Row) (acc : gmap string Vote) :
  votes_keyed acc ->
  votes_keyed
    (fold_left (fun (acc : gmap string Vote) v => <[Votes.player_id v := vote_of_row v]> acc)
       rows acc).
Proof.
  revert acc. induction rows as [|row rows IH]; intros acc Hacc; simpl; [exact Hacc|].
  apply IH, votes_keyed_insert, Hacc.
Qed.

Lemma onChange_keyed (c : Change) (s : RoomState) :
  votes_keyed (votes s) -> votes_keyed (votes (onChange roomId c s)).
Proof.
  intros Hs. destruct c; simpl; try exact Hs.
  - intros k v Hkv. apply map_lookup_filter_Some in Hkv as [Hkv _]. exact (Hs k v Hkv).
  - apply votes_keyed_insert, Hs.
  - apply votes_keyed_insert, Hs.
  - intros k v Hkv. apply lookup_delete_Some in Hkv as [_ Hkv]. exact (Hs k v Hkv).
Qed.

Lemma forEach_keyed {A} (f : A -> Io unit) (l : list A) :
  (forall x, preserves keyed (f x)) -> preserves keyed (forEach f l).
Proof.
  intros Hf. induction l as [|x rest IH]; cbn [forEach].
  - apply preserves_ret.
  - apply preserves_bind; [apply Hf | intros _; exact IH].
Qed.

Lemma forAiPlayers_keyed rt story i aiPlayers :
  preserves keyed (forAiPlayers roomId rt story i aiPlayers).
Proof.
  revert i. induction aiPlayers as [|player rest IH]; intros i; cbn [forAiPlayers].
  - apply preserves_ret.
  - preserve; apply IH.
Qed.

Lemma perform_keyed (a : Action) : preserves keyed (perform roomId a).
Proof.
  destruct a; simpl.
  - unfold mount, loadRoomData, joinRoom, skip. preserve.
    apply preserves_setRoomState. intros s _. simpl.
    apply votes_keyed_fold, votes_keyed_empty.
  - unfold updateStory. preserve.
  - unfold updatePhase, skip. preserve.
    apply preserves_setRoomState. intros s Hs. simpl.
    case_decide; [apply votes_keyed_empty | exact Hs].
  - unfold addAiPlayers, skip. preserve.
    apply forEach_keyed. intros persona. preserve.
  - unfold handleVote, skip. preserve.
  - unfold aiEffect, triggerAiVotes, skip. preserve.
    apply forAiPlayers_keyed.
  - unfold leaveRoom. preserve.
Qed.

(** In every world a client can reach, each estimate of its projection
    sits under the id of the participant it names. *)
Lemma reachable_keyed (w : World) :
  reachable roomId w -> votes_keyed (votes (roomState w)).
Proof.
  induction 1 as [d c | w a _ IH | w c _ IH | w d _ IH]; simpl.
  - apply votes_keyed_empty.
  - apply (perform_keyed a w IH).
  - apply onChange_keyed, IH.
  - exact IH.
Qed.

Lemma keyed_one_estimate (m : gmap string Vote) :
  votes_keyed m -> one_estimate_per_participant m.
Proof.
  intros Hm k1 k2 v1 v2 H1 H2 Heq.
  rewrite <- (Hm k1 v1 H1), <- (Hm k2 v2 H2). exact Heq.
Qed.

End Keyed.

(** ** The room hook: the claims *)

Section Reachability.

Import Spec UseSupabaseRoom.

Variable roomId : string.

Lemma reachable_deliver (changes : list Change) (w : World) :
  reachable roomId w ->
  reachable roomId (withRoomState (deliver roomId changes (roomState w)) w).
Proof.
  revert w. induction changes as [|c changes IH]; intros w Hw.
  - destruct w. exact Hw.
  - exact (IH _ (reach_change roomId w c Hw)).
Qed.

Lemma reachable_andEcho (a : Action) (w : World) :
  reachable roomId w -> reachable roomId (andEcho roomId (perform roomId a) w).
Proof.
  intros Hw. unfold andEcho.
  pose proof (reach_perform roomId w a Hw) as H.
  destruct (perform roomId a w) as [[r w'] log]. simpl in H.
  apply reachable_deliver, H.
Qed.

(** A vote cast during the round, with the rows it refers to in place:
    the row is upserted and its echo lands in the estimate map. *)
Lemma handleVote_echo (w : World) (u : Player) (v : JsValue) :
  currentUser w = Some u ->
  phase (roomState w) = VOTING ->
  is_Some (rooms_table (db w) !! roomId) ->
  is_Some (players_table (db w) !! id u) ->
  andEcho roomId (handleVote roomId v) w
  = withRoomState
      (onChange roomId (votes_INSERT (castRow roomId (id u) v None)) (roomState w))
      (withDb (set_votes <[roomId ++ "-" ++ id u := castRow roomId (id u) v None]> (db w)) w).
Proof.
  intros Hu Hphase [room Hroom] [player Hplayer].
  destruct w as [d c cu s b]. simpl in *. subst cu.
  unfold andEcho, handleVote, render, write, mbind, Io_bind. simpl.
  destruct (decide (phase s ≠ VOTING)) as [Hne|_]; [congruence|].
  unfold upsert_vote. simpl. rewrite Hroom, Hplayer.
  destruct (votes_table d !! _); reflexivity.
Qed.

End Reachability.

Section RoundTrip.

Import Spec UseSupabaseRoom.

(** C1, as stated, fails. During the round Ann casts the number 5 and
    reads back the string "5", which is not the number; and before the
    round starts her vote is not written at all, so nothing is read back. *)
Lemma vote_read_back_differs :
  (currentUser Examples.voting = Some Examples.ann
   /\ phase (roomState Examples.voting) = VOTING
   /\ value <$> votes (roomState
        (andEcho "R1" (handleVote "R1" (JsNumber 5)) Examples.voting)) !! "A"
      = Some (JsString "5")
   /\ JsString "5" <> JsNumber 5)
  /\ (currentUser Examples.joined = Some Examples.ann
      /\ phase (roomState Examples.joined) = SETUP
      /\ votes (roomState
           (andEcho "R1" (handleVote "R1" (JsNumber 5)) Examples.joined)) !! "A"
         = None).
Proof. vm_compute. repeat split; discriminate. Qed.

(** C1, amended. While the phase is VOTING, with the rows of the room and
    of the current user [u] in the store: after the current user casts [v]
    and the echo of the write is applied, the estimate under [u] has the
    value [v.toString()]; a second vote [v'] replaces that entry (the map
    is the one before the two votes with the single entry of [v'] under
    [u], and the store holds the one row of [v']), and no participant is
    named by two entries of the map. Outside VOTING, or with no current
    user, casting a vote sends nothing and changes nothing, in the store
    or locally. *)
Theorem handleVote_round_trip roomId (w : World) (v v' : JsValue) :
  reachable roomId w ->
  (forall u : Player,
     currentUser w = Some u ->
     phase (roomState w) = VOTING ->
     is_Some (rooms_table (db w) !! roomId) ->
     is_Some (players_table (db w) !! id u) ->
     let w1 := andEcho roomId (handleVote roomId v) w in
     let w2 := andEcho roomId (handleVote roomId v') w1 in
     value <$> votes (roomState w1) !! id u = Some (JsString (toString v))
     /\ votes (roomState w2)
        = <[id u := vote_of_row (castRow roomId (id u) v' None)]> (votes (roomState w))
     /\ dom (votes (roomState w2)) = dom (votes (roomState w1))
     /\ votes_table (db w2) !! (roomId ++ "-" ++ id u)
        = Some (castRow roomId (id u) v' None)
     /\ one_estimate_per_participant (votes (roomState w2)))
  /\ (currentUser w = None \/ phase (roomState w) <> VOTING ->
      handleVote roomId v w = (Normal tt, w, [])
      /\ andEcho roomId (handleVote roomId v) w = w).
Proof.
  intros Hreach. split.
  - intros u Hu Hphase Hroom Hplayer w1 w2.
    pose proof (handleVote_echo roomId w u v Hu Hphase Hroom Hplayer) as E1.
    fold w1 in E1.
    assert (currentUser w1 = Some u) as Hu1 by (rewrite E1; exact Hu).
    assert (phase (roomState w1) = VOTING) as Hphase1 by (rewrite E1; exact Hphase).
    assert (is_Some (rooms_table (db w1) !! roomId)) as Hroom1 by (rewrite E1; exact Hroom).
    assert (is_Some (players_table (db w1) !! id u)) as Hplayer1
      by (rewrite E1; exact Hplayer).
    pose proof (handleVote_echo roomId w1 u v' Hu1 Hphase1 Hroom1 Hplayer1) as E2.
    fold w2 in E2.
    assert (Hkeyed : votes_keyed (votes (roomState w2))).
    { apply (reachable_keyed roomId).
      apply (reachable_andEcho roomId (HandleVote v')),
            (reachable_andEcho roomId (HandleVote v)), Hreach. }
    clearbody w1 w2. clear Hu1 Hphase1 Hroom1 Hplayer1. subst w1 w2. simpl in *.
    repeat split.
    + rewrite lookup_insert_eq. reflexivity.
    + apply insert_insert_eq.
    + rewrite !dom_insert_L, (assoc_L (∪)), (idemp_L (∪)). reflexivity.
    + apply lookup_insert_eq.
    + apply keyed_one_estimate, Hkeyed.
  - intros Hguard.
    assert (E : handleVote roomId v w = (Normal tt, w, [])).
    { unfold handleVote, render, skip, mbind, Io_bind, mret, Io_ret.
      destruct (currentUser w) as [u|]; [|reflexivity].
      destruct (decide (phase (roomState w) ≠ VOTING)) as [_|Hin]; [reflexivity|].
      exfalso. destruct Hguard as [Hnone | Hout]; [discriminate Hnone|].
      apply Hin, Hout. }
    split; [exact E|]. unfold andEcho. rewrite E.
    destruct w as [d c u [] b]. reflexivity.
Qed.

(** Ann casts 5 and then "?" in the round she started; before she starts
    it, her vote goes nowhere. *)
Lemma handleVote_round_trip_witness :
  (let w1 := andEcho "R1" (handleVote "R1" (JsNumber 5)) Examples.voting in
   let w2 := andEcho "R1" (handleVote "R1" (JsString "?")) w1 in
   value <$> votes (roomState w1) !! "A" = Some (JsString "5")
   /\ votes (roomState w2)
      = <["A" := vote_of_row (castRow "R1" "A" (JsString "?") None)]>
          (votes (roomState Examples.voting))
   /\ dom (votes (roomState w2)) = dom (votes (roomState w1))
   /\ votes_table (db w2) !! "R1-A" = Some (castRow "R1" "A" (JsString "?") None)
   /\ one_estimate_per_participant (votes (roomState w2)))
  /\ (handleVote "R1" (JsNumber 5) Examples.joined = (Normal tt, Examples.joined, [])
      /\ andEcho "R1" (handleVote "R1" (JsNumber 5)) Examples.joined = Examples.joined).
Proof.
  split.
  - apply (proj1 (handleVote_round_trip "R1" Examples.voting (JsNumber 5) (JsString "?")
             (reachable_andEcho "R1" (UpdatePhase VOTING) _
                (reachable_andEcho "R1" (Mount "A" "Ann") _ (reach_start "R1" _ _))))
           Examples.ann).
    + reflexivity.
    + reflexivity.
    + vm_compute. eauto.
    + vm_compute. eauto.
  - apply (proj2 (handleVote_round_trip "R1" Examples.joined (JsNumber 5) (JsNumber 5)
             (reachable_andEcho "R1" (Mount "A" "Ann") _ (reach_start "R1" _ _)))).
    right. discriminate.
Defined.

End RoundTrip.

Section Roster.

Import Spec UseSupabaseRoom.

(** C9. In every world the client can reach, the change event of the
    deletion of participant [p] removes [p] from the roster and the
    estimate under [p] from the map; the other roster entries stay, in
    their order, and so does every estimate under another id. The topic
    and the phase stay too. *)
Theorem player_deleted_cleanup roomId (w : World) (old : Players.Row) :
  reachable roomId w ->
  let s := roomState w in
  let s' := onChange roomId (players_DELETE old) s in
  let p := Players.id old in
  (forall q, q ∈ players s' <-> q ∈ players s /\ id q <> p)
  /\ players s' `sublist_of` players s
  /\ votes s' !! p = None
  /\ (forall k, k <> p -> votes s' !! k = votes s !! k)
  /\ story s' = story s
  /\ phase s' = phase s.
Proof.
  intros Hreach s s' p.
  pose proof (reachable_keyed roomId w Hreach) as Hkeyed. fold s in Hkeyed.
  subst s'. simpl. split; [|split; [|split; [|split; [|split; reflexivity]]]].
  - intros q. rewrite list_elem_of_filter. tauto.
  - apply sublist_filter.
  - apply map_lookup_filter_None. right. intros v Hv. simpl.
    rewrite (Hkeyed p v Hv). intros Hne. apply Hne. reflexivity.
  - intros k Hk. destruct (votes s !! k) as [v|] eqn:E.
    + apply map_lookup_filter_Some. split; [exact E|]. simpl.
      rewrite (Hkeyed k v E). exact Hk.
    + apply map_lookup_filter_None. left. exact E.
Qed.

(** Ann leaves after her vote: the roster and the map are empty again. *)
Lemma player_deleted_cleanup_witness :
  let s := roomState Examples.voted in
  let s' := onChange "R1" (players_DELETE Examples.annRow) s in
  (forall q, q ∈ players s' <-> q ∈ players s /\ id q <> "A")
  /\ players s' `sublist_of` players s
  /\ votes s' !! "A" = None
  /\ (forall k, k <> "A" -> votes s' !! k = votes s !! k)
  /\ story s' = story s
  /\ phase s' = phase s.
Proof.
  apply (player_deleted_cleanup "R1" Examples.voted Examples.annRow).
  apply (reachable_andEcho "R1" (HandleVote (JsNumber 5))),
        (reachable_andEcho "R1" (UpdatePhase VOTING)),
        (reachable_andEcho "R1" (Mount "A" "Ann")), reach_start.
Defined.

(** C4, as stated, fails: the same insertion delivered twice puts Ann in
    the roster twice. *)
Lemma players_INSERT_twice_duplicates :
  let s := deliver "R1"
             [players_INSERT Examples.annRow; players_INSERT Examples.annRow]
             initialRoomState in
  id <$> players s = ["A"; "A"] /\ ~ NoDup (id <$> players s).
Proof.
  split; [reflexivity|]. simpl. intros H.
  apply NoDup_cons in H as [H _]. apply H, list_elem_of_singleton. reflexivity.
Qed.

(** C4, amended. The change event of an insertion appends the participant
    to the roster whether or not its id is there already; the ids of the
    roster are distinct afterwards exactly when they were distinct before
    and the new id was not among them. *)
Theorem players_INSERT_appends roomId (newPlayer : Players.Row) (s : RoomState) :
  let s' := onChange roomId (players_INSERT newPlayer) s in
  players s' = (players s ++ [player_of_row newPlayer])%list
  /\ id (player_of_row newPlayer) = Players.id newPlayer
  /\ (NoDup (id <$> players s')
      <-> NoDup (id <$> players s) /\ Players.id newPlayer ∉ id <$> players s).
Proof.
  simpl. split; [reflexivity|]. split; [reflexivity|].
  rewrite fmap_app. simpl. rewrite NoDup_app. split.
  - intros (Hnd & Hdisj & _). split; [exact Hnd|].
    intros Hin. apply (Hdisj _ Hin). apply list_elem_of_singleton. reflexivity.
  - intros [Hnd Hnotin]. split; [exact Hnd|]. split.
    + intros x Hx Hx'. apply list_elem_of_singleton in Hx'. subst x. exact (Hnotin Hx).
    + apply NoDup_singleton.
Qed.

End Roster.

Section AllVoted.

Import Spec UseSupabaseRoom.

(** C5, as stated, fails. With Ann alone in the roster and estimates
    under both her id and Bob's, [allVoted] is true although two ids, not
    one, have entries; with Ann twice in the roster and her one estimate,
    [allVoted] is true although one id, not two, has an entry. *)
Lemma allVoted_not_a_count :
  (allVoted Examples.strayVote = true
   /\ id <$> players Examples.strayVote = ["A"]
   /\ size (dom (votes Examples.strayVote)) = 2%nat)
  /\ (allVoted Examples.twiceAnn = true
      /\ id <$> players Examples.twiceAnn = ["A"; "A"]
      /\ size (dom (votes Examples.twiceAnn)) = 1%nat).
Proof. vm_compute. repeat split. Qed.

Lemma truthy_at_iff {V} (obj : gmap string V) (key : string) :
  truthy_at obj key = true <-> is_Some (obj !! key) \/ key ∈ Object_prototype.
Proof. unfold truthy_at. rewrite orb_true_iff, !bool_decide_eq_true. reflexivity. Qed.

Lemma allVoted_iff (s : RoomState) :
  allVoted s = true
  <-> players s <> []
      /\ forall p, p ∈ players s -> is_Some (votes s !! id p) \/ id p ∈ Object_prototype.
Proof.
  unfold allVoted. rewrite andb_true_iff, bool_decide_eq_true, forallb_forall.
  split.
  - intros [Hlen Hall]. split.
    + intros E. rewrite E in Hlen. simpl in Hlen. lia.
    + intros p Hp. apply list_elem_of_In in Hp.
      apply truthy_at_iff, Hall, Hp.
  - intros [Hne Hall]. split.
    + destruct (players s); [congruence | simpl; lia].
    + intros p Hp. apply truthy_at_iff, Hall, list_elem_of_In, Hp.
Qed.

(** C5, amended. [allVoted] is false on an empty roster; on a roster of
    size n > 0 it is true iff each of the n roster entries has an entry
    under its id in the estimate map, or an id that names a property every
    object inherits (constructor, toString, ...), which the lookup finds
    too. When no roster id is such a name, the ids of the roster are
    distinct and every estimate is under the id of a roster participant,
    that is: iff exactly n distinct ids have entries in the map. The map
    has no estimate under the key __proto__ (assigned in [loadRoomData],
    such an estimate would become the prototype of the map). *)
Theorem allVoted_spec (s : RoomState) :
  votes s !! "__proto__" = None ->
  (players s = [] -> allVoted s = false)
  /\ (allVoted s = true
      <-> (0 < length (players s))%nat
          /\ forall p, p ∈ players s ->
                       is_Some (votes s !! id p) \/ id p ∈ Object_prototype)
  /\ ((forall p, p ∈ players s -> id p ∉ Object_prototype) ->
      NoDup (id <$> players s) ->
      dom (votes s) ⊆ list_to_set (id <$> players s) ->
      (allVoted s = true
       <-> (0 < length (players s))%nat
           /\ size (dom (votes s)) = length (players s))).
Proof.
  intros _.
  assert (Hlen : players s <> [] <-> (0 < length (players s))%nat).
  { destruct (players s); simpl; split; (congruence || lia). }
  split; [|split].
  - intros E. unfold allVoted. rewrite E. reflexivity.
  - rewrite allVoted_iff, Hlen. reflexivity.
  - intros Hplain Hnd Hsub. rewrite allVoted_iff, Hlen.
    set (ids := list_to_set (id <$> players s) : gset string) in *.
    assert (Hsize : size ids = length (players s)).
    { unfold ids. rewrite size_list_to_set by exact Hnd. apply length_fmap. }
    split; intros [Hpos H]; (split; [exact Hpos|]).
    + rewrite <- Hsize. f_equal. apply set_eq. intros k. split; [apply Hsub|].
      intros Hk. apply elem_of_list_to_set, list_elem_of_fmap in Hk as (p & -> & Hp).
      apply elem_of_dom. destruct (H p Hp) as [Hv | Hin]; [exact Hv|].
      exfalso. exact (Hplain p Hp Hin).
    + intros p Hp. left. apply elem_of_dom.
      assert (Heq : dom (votes s) = ids).
      { apply set_eq. apply set_subseteq_size_equiv; [exact Hsub|]. lia. }
      rewrite Heq. apply elem_of_list_to_set, list_elem_of_fmap. eauto.
Qed.

(** Ann alone in the roster, with her vote cast. *)
Lemma allVoted_spec_witness :
  allVoted (roomState Examples.voted) = true
  <-> (0 < length (players (roomState Examples.voted)))%nat
      /\ size (dom (votes (roomState Examples.voted)))
         = length (players (roomState Examples.voted)).
Proof.
  apply (allVoted_spec (roomState Examples.voted)).
  - reflexivity.
  - refine (proj1 (Forall_forall _ _) _).
    refine (bool_decide_unpack _ _). vm_compute. exact I.
  - refine (bool_decide_unpack _ _). vm_compute. exact I.
  - refine (bool_decide_unpack _ _). vm_compute. exact I.
Defined.

End AllVoted.

Section Mutations.

Import Spec UseSupabaseRoom.

Lemma select_votes_deleted (rid : string) (d : Db) :
  select_votes rid (delete_votes rid d).1 = [].
Proof.
  apply elem_of_nil_inv. intros row Hrow. unfold select_votes in Hrow.
  apply list_elem_of_filter in Hrow as [Hrid Hrow].
  apply list_elem_of_fmap in Hrow as ([k row'] & -> & Hin).
  apply elem_of_map_to_list in Hin. simpl in *.
  apply map_lookup_filter_Some in Hin as [_ Hne]. exact (Hne Hrid).
Qed.

Lemma update_room_lookup (fields : Rooms.Update) (rid : string) (d : Db) :
  rooms_table (update_room fields rid d).1 !! rid
  = Rooms.updated fields <$> rooms_table d !! rid.
Proof.
  unfold update_room. destruct (rooms_table d !! rid) as [r|] eqn:E; simpl.
  - apply lookup_insert_eq.
  - exact E.
Qed.

(** C2. From any state, [setPhase(next)] sets the local phase to [next]
    and writes the phase to the room row. If [next] is VOTING the local
    estimate map becomes empty and the estimate rows of the room are
    deleted in bulk (the rows of other rooms stay). For any other [next]
    the estimate map and the estimate rows are unchanged and the phase is
    the only write. The topic and the roster are unchanged in all cases. *)
Theorem updatePhase_effect roomId (next : GamePhase) (w : World) :
  let out := updatePhase roomId next w in
  let w' := out.1.2 in
  let s := roomState w in
  let s' := roomState w' in
  out.1.1 = Normal tt
  /\ phase s' = next
  /\ story s' = story s
  /\ players s' = players s
  /\ rooms_table (db w') !! roomId
     = Rooms.updated (phaseOnly next) <$> rooms_table (db w) !! roomId
  /\ match next with
     | VOTING =>
       votes s' = ∅
       /\ requests out.2 = [UpdateRoom (phaseOnly VOTING) roomId; DeleteVotes roomId]
       /\ select_votes roomId (db w') = []
       /\ votes_table (db w')
          = filter (fun kr => Votes.room_id kr.2 ≠ roomId) (votes_table (db w))
     | _ =>
       votes s' = votes s
       /\ requests out.2 = [UpdateRoom (phaseOnly next) roomId]
       /\ votes_table (db w') = votes_table (db w)
     end.
Proof.
  intros out w' s s'. subst out w' s s'.
  pose proof (update_room_lookup (phaseOnly next) roomId (db w)) as Hroom.
  pose proof (select_votes_deleted roomId (update_room (phaseOnly next) roomId (db w)).1)
    as Hdel.
  unfold updatePhase, setRoomState, write, skip, mbind, Io_bind, mret, Io_ret.
  simpl. fold (phaseOnly next).
  destruct (update_room (phaseOnly next) roomId (db w)) as [d1 c1] eqn:E1. simpl in *.
  assert (Hvotes : votes_table d1 = votes_table (db w)).
  { unfold update_room in E1. destruct (rooms_table (db w) !! roomId);
      injection E1 as <- _; reflexivity. }
  assert (Hreq : forall cs : list Change,
    omap (fun e => if e is Sent r then Some r else None) (Broadcast <$> cs) = []).
  { induction cs; [reflexivity | exact IHcs]. }
  destruct next; simpl.
  - repeat split; try exact Hroom; try exact Hvotes.
    unfold requests. simpl. rewrite app_nil_r, Hreq. reflexivity.
  - destruct (delete_votes roomId d1) as [d2 c2] eqn:E2. simpl in *.
    unfold delete_votes in E2. injection E2 as <- <-. simpl.
    repeat split; try exact Hroom; try exact Hdel.
    + unfold requests. simpl. rewrite omap_app, Hreq. simpl. rewrite Hreq. reflexivity.
    + rewrite Hvotes. reflexivity.
  - repeat split; try exact Hroom; try exact Hvotes.
    unfold requests. simpl. rewrite app_nil_r, Hreq. reflexivity.
Qed.

Lemma requests_Broadcast (cs : list Change) : requests (Broadcast <$> cs) = [].
Proof. induction cs as [|c cs IH]; [reflexivity | exact IH]. Qed.

Lemma requests_write (r : Request) (w : World) : requests (write r w).2 = [r].
Proof.
  unfold write. destruct (execute r (db w)) as [d cs]. simpl.
  unfold requests. simpl. fold (requests (Broadcast <$> cs)).
  rewrite requests_Broadcast. reflexivity.
Qed.

Lemma roomState_write (r : Request) (w : World) :
  roomState (write r w).1.2 = roomState w.
Proof. unfold write. destruct (execute r (db w)). reflexivity. Qed.

Lemma updatePhase_local roomId (next : GamePhase) (w : World) :
  phase (roomState (updatePhase roomId next w).1.2) = next.
Proof.
  unfold updatePhase, setRoomState, write, skip, mbind, Io_bind, mret, Io_ret. simpl.
  destruct (update_room _ roomId (db w)) as [d1 c1]. simpl.
  destruct next; reflexivity.
Qed.

Lemma updatePhase_requests roomId (next : GamePhase) (w : World) :
  requests (updatePhase roomId next w).2
  = UpdateRoom (phaseOnly next) roomId
      :: (if decide (next = VOTING) then [DeleteVotes roomId] else []).
Proof.
  unfold updatePhase, setRoomState, write, skip, mbind, Io_bind, mret, Io_ret. simpl.
  fold (phaseOnly next).
  destruct (update_room _ roomId (db w)) as [d1 c1]. simpl.
  destruct next; simpl.
  - unfold requests. simpl. rewrite app_nil_r. fold (requests (Broadcast <$> c1)).
    rewrite requests_Broadcast. reflexivity.
  - destruct (delete_votes roomId d1) as [d2 c2]. simpl.
    unfold requests. simpl. rewrite omap_app. simpl.
    fold (requests (Broadcast <$> c1)). fold (requests (Broadcast <$> c2)).
    rewrite !requests_Broadcast. reflexivity.
  - unfold requests. simpl. rewrite app_nil_r. fold (requests (Broadcast <$> c1)).
    rewrite requests_Broadcast. reflexivity.
Qed.

(** C3, as stated, fails. Before the round starts [castVote] sends nothing
    and changes nothing; [setTopic] sends its write but leaves the local
    topic as it was; and during the round [castVote] sends its write but
    leaves the local estimate map as it was. *)
Lemma mutations_not_all_immediate :
  (currentUser Examples.joined = Some Examples.ann
   /\ phase (roomState Examples.joined) = SETUP
   /\ handleVote "R1" (JsNumber 5) Examples.joined = (Normal tt, Examples.joined, []))
  /\ (story (roomState Examples.joined) = {| title := ""; description := "" |}
      /\ story (roomState (updateStory "R1" Examples.login_story Examples.joined).1.2)
         = {| title := ""; description := "" |})
  /\ (phase (roomState Examples.voting) = VOTING
      /\ requests (handleVote "R1" (JsNumber 5) Examples.voting).2
         = [UpsertVote (castRow "R1" "A" (JsNumber 5) None)]
      /\ votes (roomState (handleVote "R1" (JsNumber 5) Examples.voting).1.2) = ∅).
Proof. vm_compute. repeat split. Qed.

(** C3, amended. [setPhase] updates the local projection at once and sends
    its write. [setTopic] and [castVote] send their write and leave the
    local projection alone (it changes when the echo is applied).
    [castVote] sends its upsert only when there is a current user and the
    phase is VOTING; otherwise it sends nothing and changes nothing. *)
Theorem mutations_write_through roomId (w : World) :
  (forall next,
     phase (roomState (updatePhase roomId next w).1.2) = next
     /\ head (requests (updatePhase roomId next w).2)
        = Some (UpdateRoom (phaseOnly next) roomId))
  /\ (forall story',
       roomState (updateStory roomId story' w).1.2 = roomState w
       /\ requests (updateStory roomId story' w).2
          = [UpdateRoom (storyOnly story') roomId])
  /\ (forall value,
       roomState (handleVote roomId value w).1.2 = roomState w
       /\ match currentUser w, phase (roomState w) with
          | Some u, VOTING =>
            requests (handleVote roomId value w).2
            = [UpsertVote (castRow roomId (id u) value None)]
          | _, _ => handleVote roomId value w = (Normal tt, w, [])
          end).
Proof.
  split; [|split].
  - intros next. split; [apply updatePhase_local|].
    rewrite updatePhase_requests. reflexivity.
  - intros story'. unfold updateStory. fold (storyOnly story').
    split; [apply roomState_write | apply requests_write].
  - intros value. unfold handleVote, render, skip, mbind, Io_bind, mret, Io_ret. simpl.
    destruct (currentUser w) as [u|]; [|split; reflexivity].
    destruct (phase (roomState w)); simpl; try (split; reflexivity).
    fold (castRow roomId (id u) value None).
    pose proof (roomState_write (UpsertVote (castRow roomId (id u) value None)) w) as Hs.
    pose proof (requests_write (UpsertVote (castRow roomId (id u) value None)) w) as Hr.
    destruct (write _ w) as [[r w'] log]. simpl in *.
    split; assumption.
Qed.

End Mutations.

Section Scheduler.

Import Spec UseSupabaseRoom.






Lemma forallb_false_elem {A} (f : A -> bool) (l : list A) :
  forallb f l = false <-> exists x, x ∈ l /\ f x = false.
Proof.
  induction l as [|a l IH]; simpl.
  - split; [discriminate | intros (x & Hx & _); inversion Hx].
  - rewrite andb_false_iff, IH. split.
    + intros [Ha | (x & Hx & Hfx)]; [exists a | exists x]; split;
        auto using list_elem_of_here, list_elem_of_further.
    + intros (x & Hx & Hfx). apply elem_of_cons in Hx as [-> | Hx]; eauto.
Qed.

Lemma firesAiVotes_iff (w : World) :
  firesAiVotes w = true
  <-> phase (roomState w) = VOTING
      /\ aiPlayersOf (roomState w) <> []
      /\ isProcessingAI w = false
      /\ exists p, p ∈ aiPlayersOf (roomState w)
                   /\ votes (roomState w) !! id p = None
                   /\ id p ∉ Object_prototype.
Proof.
  unfold firesAiVotes.
  rewrite !andb_true_iff, !bool_decide_eq_true, !negb_true_iff, forallb_false_elem.
  assert (Hlen : (0 < length (aiPlayersOf (roomState w)))%nat
                 <-> aiPlayersOf (roomState w) <> []).
  { destruct (aiPlayersOf (roomState w)); simpl; split; (congruence || lia). }
  rewrite Hlen.
  assert (Hex :
    (exists i, i ∈ id <$> aiPlayersOf (roomState w)
               /\ truthy_at (votes (roomState w)) i = false)
    <-> exists p, p ∈ aiPlayersOf (roomState w)
                  /\ votes (roomState w) !! id p = None
                  /\ id p ∉ Object_prototype).
  { unfold truthy_at. split.
    - intros (i & Hi & Hv). apply list_elem_of_fmap in Hi as (p & -> & Hp).
      exists p. split; [exact Hp|].
      apply orb_false_iff in Hv as [Hv Hin].
      apply bool_decide_eq_false in Hv, Hin.
      split; [apply eq_None_not_Some, Hv | exact Hin].
    - intros (p & Hp & Hv & Hin). exists (id p). split.
      + apply list_elem_of_fmap. eauto.
      + apply orb_false_iff. split; apply bool_decide_eq_false;
          [rewrite Hv; apply is_Some_None | exact Hin]. }
  rewrite Hex. tauto.
Qed.




End Scheduler.

Section Strings.

Import Spec UseSupabaseRoom.

Context (Q : Effect -> Prop).

Lemma logs_ret {A} (a : A) : logs_only Q (mret a : Io A).
Proof. intros w. apply Forall_nil_2. Qed.

Lemma logs_bind {A B} (m : Io A) (k : A -> Io B) :
  logs_only Q m -> (forall a, logs_only Q (k a)) -> logs_only Q (m ≫= k).
Proof.
  intros Hm Hk w. unfold mbind, Io_bind.
  specialize (Hm w). destruct (m w) as [[[a|e] w1] log1]; simpl in *; [|exact Hm].
  specialize (Hk a w1). destruct (k a w1) as [[r2 w2] log2]. simpl in *.
  apply Forall_app. split; assumption.
Qed.

(** The same, when what [m] returns is known to satisfy [R]. *)
Lemma logs_bind_result {A B} (R : A -> Prop) (m : Io A) (k : A -> Io B) :
  logs_only Q m ->
  (forall w a w' log, m w = (Normal a, w', log) -> R a) ->
  (forall a, R a -> logs_only Q (k a)) ->
  logs_only Q (m ≫= k).
Proof.
  intros Hm HR Hk w. unfold mbind, Io_bind.
  specialize (Hm w). specialize (HR w).
  destruct (m w) as [[[a|e] w1] log1]; simpl in *; [|exact Hm].
  specialize (Hk a (HR a w1 log1 eq_refl) w1).
  destruct (k a w1) as [[r2 w2] log2]. simpl in *.
  apply Forall_app. split; assumption.
Qed.

Lemma logs_write (r : Request) :
  Q (Sent r) ->
  (forall d, Forall Q (Broadcast <$> (execute r d).2)) ->
  logs_only Q (write r).
Proof.
  intros Hr Hcs w. unfold write. specialize (Hcs (db w)).
  destruct (execute r (db w)) as [d cs]. simpl in *.
  apply Forall_cons. split; assumption.
Qed.

Lemma logs_silent {A} (m : Io A) : (forall w, (m w).2 = []) -> logs_only Q m.
Proof. intros H w. rewrite H. apply Forall_nil_2. Qed.

Lemma logs_generateAiVote rt story personaName personaRole :
  Q (Call_generateAiVote story personaName personaRole) ->
  logs_only Q (generateAiVote rt story personaName personaRole).
Proof.
  intros H w. unfold generateAiVote.
  destruct (GeminiService.generateAiVote _ _ _ _ _). simpl.
  apply Forall_cons. split; [exact H | apply Forall_nil_2].
Qed.

End Strings.

Ltac logging :=
  repeat first
    [ apply logs_bind; [|intros ?]
    | apply logs_ret
    | apply logs_silent; intros ?; reflexivity
    | match goal with
      | |- Spec.logs_only _ (match ?x with _ => _ end) => destruct x
      end ].

Section StringClaims.

Import Spec UseSupabaseRoom.

Lemma Forall_Broadcast (Q : Effect -> Prop) (cs : list Change) :
  (forall c, Q (Broadcast c)) -> Forall Q (Broadcast <$> cs).
Proof. intros H. apply Forall_fmap, Forall_true. intros c. apply H. Qed.

Lemma broadcasts_send (R : Request -> Prop) (r : Request) (d : Db) :
  Forall (sends R) (Broadcast <$> (execute r d).2).
Proof. apply Forall_Broadcast. intros c. exact I. Qed.

Lemma broadcasts_carry_strings (r : Request) (d : Db) :
  carries_strings (Sent r) -> Forall carries_strings (Broadcast <$> (execute r d).2).
Proof.
  intros Hr. destruct r as [row|row|fields rid|row|rid|rid userId]; simpl.
  - unfold insert_room. destruct (rooms_table d !! Rooms.id row); apply Forall_nil_2.
  - unfold insert_player.
    destruct (players_table d !! Players.id row), (rooms_table d !! Players.room_id row);
      simpl; try apply Forall_nil_2.
    apply Forall_singleton. exact I.
  - unfold update_room. destruct (rooms_table d !! rid); simpl; [|apply Forall_nil_2].
    apply Forall_singleton. exact I.
  - unfold upsert_vote.
    destruct (rooms_table d !! Votes.room_id row), (players_table d !! Votes.player_id row);
      simpl; try apply Forall_nil_2.
    apply Forall_singleton. destruct (votes_table d !! Votes.id row); exact Hr.
  - unfold delete_votes. simpl.
    apply Forall_fmap, Forall_fmap, Forall_true. intros row. exact I.
  - unfold delete_player. destruct (players_table d !! userId); [|apply Forall_nil_2].
    case_decide; [|apply Forall_nil_2]. simpl.
    rewrite fmap_app. apply Forall_app. split.
    + apply Forall_fmap, Forall_fmap, Forall_true. intros row. exact I.
    + apply Forall_singleton. exact I.
Qed.

(** A write together with its broadcasts, for the two properties of logs
    used below. *)
Lemma logs_write_strings (r : Request) :
  carries_strings (Sent r) -> logs_only carries_strings (write r).
Proof.
  intros Hr. apply logs_write; [exact Hr|].
  intros d. apply broadcasts_carry_strings, Hr.
Qed.

Lemma logs_write_sends (R : Request -> Prop) (r : Request) :
  R r -> logs_only (sends R) (write r).
Proof.
  intros Hr. apply logs_write; [exact Hr|]. intros d. apply broadcasts_send.
Qed.

Lemma logs_forEach (Q : Effect -> Prop) {A} (f : A -> Io unit) (l : list A) :
  (forall x, logs_only Q (f x)) -> logs_only Q (forEach f l).
Proof.
  intros Hf. induction l as [|x rest IH]; cbn [forEach].
  - apply logs_ret.
  - apply logs_bind; [apply Hf | intros _; exact IH].
Qed.

Lemma forAiPlayers_strings roomId rt story (aiPlayers : list Player) :
  forall i, logs_only carries_strings (forAiPlayers roomId rt story i aiPlayers).
Proof.
  induction aiPlayers as [|player rest IH]; intros i; cbn [forAiPlayers].
  - apply logs_ret.
  - logging; try apply IH.
    + apply logs_generateAiVote. exact I.
    + apply logs_write_strings. reflexivity.
Qed.

Lemma forAiPlayers_sends roomId rt rt' story (aiPlayers : list Player) :
  forall i,
    logs_only (sends (castBy roomId (AiEffect rt')))
      (forAiPlayers roomId rt story i aiPlayers).
Proof.
  induction aiPlayers as [|player rest IH]; intros i; cbn [forAiPlayers].
  - apply logs_ret.
  - destruct (find _ AI_PERSONAS) as [aiPersona|]; [|apply IH].
    apply (logs_bind_result _ (fun result => GeminiService.points result ∈ GeminiService.validPoints)).
    + apply logs_generateAiVote. exact I.
    + intros w result w' log. unfold generateAiVote.
      pose proof (generateAiVote_in_scale (rt i) (aiClient w) story
                    (persona_name aiPersona) (role aiPersona)) as Hscale.
      destruct (GeminiService.generateAiVote _ _ _ _ _) as [r c].
      intros [= -> _ _]. apply Hscale. reflexivity.
    + intros result Hresult. apply logs_bind; [|intros _; apply IH].
      apply logs_write_sends. simpl. eexists _, _, _. split; [exact Hresult | reflexivity].
Qed.

Lemma perform_strings roomId (a : Action) :
  logs_only carries_strings (perform roomId a).
Proof.
  destruct a; simpl.
  - unfold mount, loadRoomData, joinRoom, skip. logging;
      apply logs_write_strings; exact I.
  - unfold updateStory. apply logs_write_strings. exact I.
  - unfold updatePhase, skip. logging; apply logs_write_strings; exact I.
  - unfold addAiPlayers, skip. logging.
    apply logs_forEach. intros persona. logging. apply logs_write_strings. exact I.
  - unfold handleVote, skip. logging. apply logs_write_strings. reflexivity.
  - unfold aiEffect, triggerAiVotes, skip. logging. apply forAiPlayers_strings.
  - unfold leaveRoom. apply logs_write_strings. exact I.
Qed.

Lemma perform_sends roomId (a : Action) :
  logs_only (sends (castBy roomId a)) (perform roomId a).
Proof.
  destruct a; simpl.
  - unfold mount, loadRoomData, joinRoom, skip. logging;
      apply logs_write_sends; intros row; discriminate.
  - unfold updateStory. apply logs_write_sends. intros row. discriminate.
  - unfold updatePhase, skip. logging; apply logs_write_sends; intros row; discriminate.
  - unfold addAiPlayers, skip. logging.
    apply logs_forEach. intros persona. logging.
    apply logs_write_sends. intros row. discriminate.
  - unfold handleVote, skip. logging. apply logs_write_sends. simpl. eexists. reflexivity.
  - unfold aiEffect, triggerAiVotes, skip. logging. apply forAiPlayers_sends.
  - unfold leaveRoom. apply logs_write_sends. intros row. discriminate.
Qed.

Lemma Forall_requests (R : Request -> Prop) (log : list Effect) :
  Forall (sends R) log -> Forall R (requests log).
Proof.
  induction 1 as [|e log He _ IH]; [apply Forall_nil_2|].
  destruct e as [r|c|story n r]; simpl; try exact IH.
  apply Forall_cons. split; [exact He | exact IH].
Qed.

Lemma Forall_changesOf (log : list Effect) :
  Forall carries_strings log -> Forall carries_strings (Broadcast <$> changesOf log).
Proof.
  induction 1 as [|e log He _ IH]; [apply Forall_nil_2|].
  destruct e as [r|c|story n r]; simpl; try exact IH.
  apply Forall_cons. split; [exact He | exact IH].
Qed.

(** Delivering changes that carry strings leaves each estimate as it was
    or with a string for value. *)
Lemma deliver_strings roomId (changes : list Change) :
  Forall carries_strings (Broadcast <$> changes) ->
  forall (s : RoomState) k v,
    votes (deliver roomId changes s) !! k = Some v ->
    votes s !! k = Some v \/ is_string (value v) = true.
Proof.
  induction changes as [|c changes IH]; intros Hall s k v Hv; [left; exact Hv|].
  apply Forall_cons in Hall as [Hc Hall].
  destruct (IH Hall (onChange roomId c s) k v Hv) as [Hkv | Hstr]; [|right; exact Hstr].
  destruct c as [r|r|r|r|row|row|row]; simpl in Hkv; try (left; exact Hkv).
  - apply map_lookup_filter_Some in Hkv as [Hkv _]. left. exact Hkv.
  - rewrite lookup_insert in Hkv. case_decide; [|left; exact Hkv].
    injection Hkv as <-. right. exact Hc.
  - rewrite lookup_insert in Hkv. case_decide; [|left; exact Hkv].
    injection Hkv as <-. right. exact Hc.
  - apply lookup_delete_Some in Hkv as [_ Hkv]. left. exact Hkv.
Qed.

(** C10. Whatever a client does, every vote row it sends to the store and
    every vote row the store broadcasts for it carries a string, never a
    number. A vote of the current user carries [value.toString()] and a
    vote of the scheduler the decimal form of the member of the scale the
    adapter chose; no other action writes a vote. So when the echo is applied,
    every estimate of the local projection is as it was or has a string
    for value. *)
Theorem vote_values_are_strings roomId (a : Action) (w : World) :
  let out := perform roomId a w in
  Forall carries_strings out.2
  /\ Forall (castBy roomId a) (requests out.2)
  /\ (forall k v,
       votes (roomState (andEcho roomId (perform roomId a) w)) !! k = Some v ->
       votes (roomState out.1.2) !! k = Some v \/ is_string (value v) = true).
Proof.
  intros out. subst out.
  pose proof (perform_strings roomId a w) as Hstr.
  split; [exact Hstr|]. split.
  - apply Forall_requests, perform_sends.
  - intros k v. unfold andEcho.
    destruct (perform roomId a w) as [[r w'] log]. simpl in *.
    apply deliver_strings, Forall_changesOf, Hstr.
Qed.

(** Ann casts the number 5; its echo brings the string "5". *)
Lemma vote_values_are_strings_witness :
  votes (roomState (perform "R1" (HandleVote (JsNumber 5)) Examples.voting).1.2) !! "A"
    = Some (Examples.vote "A" "5")
  \/ is_string (value (Examples.vote "A" "5")) = true.
Proof.
  apply (vote_values_are_strings "R1" (HandleVote (JsNumber 5)) Examples.voting).
  reflexivity.
Defined.

End StringClaims.

(** * Further properties *)

(** ** The estimate adapter *)

Section AdapterMore.

Import GeminiService Spec.

(** X1. On every input the adapter returns (nothing it does throws to
    the caller), and what it returns is a member of the scale. *)
Theorem generateAiVote_always_in_scale rt aiClient story personaName personaRole :
  exists v,
    (generateAiVote rt aiClient story personaName personaRole).1 = Normal v
    /\ points v ∈ [1; 2; 3; 5; 8; 13; 21].
Proof.
  destruct (generateAiVote_returns rt aiClient story personaName personaRole) as [v Hv].
  exists v. split; [exact Hv|].
  exact (generateAiVote_in_scale rt aiClient story personaName personaRole v Hv).
Qed.

(** X2. When the title and the description are both empty once trimmed,
    the adapter draws a card of the deck with the no-context rationale; it
    does so whatever the credential, the client and the oracle are (only
    [Math.random()] matters, and the persona does not), and it neither
    builds nor caches a client. *)
Theorem generateAiVote_no_context_ignores_oracle
    rt rt' aiClient story personaName personaRole personaName' personaRole' :
  has_context story = false ->
  Math_random rt = Math_random rt' ->
  exists m,
    generateAiVote rt aiClient story personaName personaRole
      = (Normal {| points := m; reasoning := Some no_context_reasoning |}, aiClient)
    /\ generateAiVote rt' aiClient story personaName' personaRole'
       = (Normal {| points := m; reasoning := Some no_context_reasoning |}, aiClient)
    /\ m ∈ cards.
Proof.
  intros Hctx Hrnd.
  destruct (generateAiVote_no_context rt aiClient story personaName personaRole Hctx)
    as (m & E & Hm).
  exists m. split; [exact E|]. split; [|exact Hm].
  rewrite <- E. unfold has_context in Hctx. apply orb_false_iff in Hctx as [Ht Hd].
  unfold generateAiVote. rewrite Ht, Hd, Hrnd. reflexivity.
Qed.

Lemma generateAiVote_no_context_ignores_oracle_witness :
  exists m,
    generateAiVote (Examples.runtime None "" JsonNull) None Examples.blank_story
        "Mike (Junior Dev)" "Junior Frontend Developer"
      = (Normal {| points := m; reasoning := Some no_context_reasoning |}, None)
    /\ generateAiVote (Examples.runtime (Some "key") "{}" (JsonObject (Some (number 13)) None)) None
         Examples.blank_story "Sarah (Senior Dev)" "Senior Full Stack Engineer"
       = (Normal {| points := m; reasoning := Some no_context_reasoning |}, None)
    /\ m ∈ cards.
Proof.
  apply (generateAiVote_no_context_ignores_oracle
           (Examples.runtime None "" JsonNull)
           (Examples.runtime (Some "key") "{}" (JsonObject (Some (number 13)) None))
           None Examples.blank_story);
    reflexivity.
Defined.

(** X3. [getClient] caches: a client it returns is the module variable
    afterwards, and with the variable set every later call returns that
    client without looking at the credential or building anything.
    Without an API key (no [process.env], no key, an empty key) it returns
    null and caches nothing, whatever the constructor would do. *)
Theorem getClient_caches rt aiClient :
  (forall client,
     (getClient rt aiClient).1 = Some client ->
     (getClient rt aiClient).2 = Some client
     /\ forall rt', getClient rt' (Some client) = (Some client, Some client))
  /\ ((process_env rt = None \/ process_env rt = Some None
       \/ process_env rt = Some (Some "")) ->
      getClient rt None = (None, None)).
Proof.
  split.
  - intros client H. split; [|intros rt'; reflexivity].
    unfold getClient in *. destruct aiClient as [c|]; [exact H|].
    destruct (negb (truthy _)); [discriminate H|].
    destruct (GoogleGenAI rt _) as [c|e]; [exact H | discriminate H].
  - intros [E | [E | E]]; unfold getClient; rewrite E; reflexivity.
Qed.

Lemma getClient_caches_witness :
  (getClient (Examples.runtime (Some "key") "{}" JsonNull) None).2
    = Some (Examples.answering (Some "{}"))
  /\ forall rt',
       getClient rt' (Some (Examples.answering (Some "{}")))
       = (Some (Examples.answering (Some "{}")), Some (Examples.answering (Some "{}"))).
Proof.
  apply (proj1 (getClient_caches (Examples.runtime (Some "key") "{}" JsonNull) None)).
  reflexivity.
Defined.

(** X4. An answer that is a member of the scale is returned as it is,
    with the rationale of the oracle (for a topic with a visible
    character, so that the oracle is consulted). *)
Theorem generateAiVote_keeps_member
    rt aiClient story personaName personaRole client text m reasoning :
  visible story = true ->
  (getClient rt aiClient).1 = Some client ->
  generateContent client (prompt story personaName personaRole) = Normal (Some text) ->
  truthy text = true ->
  m ∈ validPoints ->
  JSON_parse rt text = Normal (JsonObject (Some (number m)) reasoning) ->
  (generateAiVote rt aiClient story personaName personaRole).1
  = Normal {| points := m; reasoning := reasoning |}.
Proof.
  intros Hvis Hclient Hcall Htext Hm Hparse.
  apply (generateAiVote_parsed rt aiClient story personaName personaRole client text
           (Some (number m)) reasoning m); try assumption;
    [apply visible_has_context, Hvis|].
  unfold validPoints in Hm.
  repeat (apply elem_of_cons in Hm as [-> | Hm]; [vm_compute; reflexivity|]).
  inversion Hm.
Qed.

Lemma generateAiVote_keeps_member_witness :
  (generateAiVote
     (Examples.runtime (Some "key") "{}" (JsonObject (Some (number 13)) (Some "risky")))
     None Examples.login_story "Sarah (Senior Dev)" "Senior Full Stack Engineer").1
  = Normal {| points := 13; reasoning := Some "risky" |}.
Proof.
  apply (generateAiVote_keeps_member
           (Examples.runtime (Some "key") "{}" (JsonObject (Some (number 13)) (Some "risky")))
           None Examples.login_story "Sarah (Senior Dev)" "Senior Full Stack Engineer"
           (Examples.answering (Some "{}")) "{}" 13 (Some "risky"));
    try reflexivity.
  apply list_elem_of_In. simpl. tauto.
Defined.

(** X5. A payload that parses but has no [points], or has [NaN] or an
    infinity there, is not treated as a failure: no comparison of the
    reduction holds, it never replaces its first member, and the adapter
    votes 1 with whatever rationale the payload has (for a topic with a
    visible character, so that the oracle is consulted). *)
Theorem generateAiVote_without_points
    rt aiClient story personaName personaRole client text pts reasoning :
  visible story = true ->
  (getClient rt aiClient).1 = Some client ->
  generateContent client (prompt story personaName personaRole) = Normal (Some text) ->
  truthy text = true ->
  pts ∈ [None; Some PrimFloat.nan; Some PrimFloat.infinity; Some PrimFloat.neg_infinity] ->
  JSON_parse rt text = Normal (JsonObject pts reasoning) ->
  (generateAiVote rt aiClient story personaName personaRole).1
  = Normal {| points := 1; reasoning := reasoning |}.
Proof.
  intros Hvis Hclient Hcall Htext Hpts Hparse.
  apply (generateAiVote_parsed rt aiClient story personaName personaRole client text
           pts reasoning 1); try assumption;
    [apply visible_has_context, Hvis|].
  repeat (apply elem_of_cons in Hpts as [-> | Hpts]; [vm_compute; reflexivity|]).
  inversion Hpts.
Qed.

Lemma generateAiVote_without_points_witness :
  (generateAiVote (Examples.runtime (Some "key") "{}" (JsonObject None (Some "no idea")))
     None Examples.login_story "Sarah (Senior Dev)" "Senior Full Stack Engineer").1
  = Normal {| points := 1; reasoning := Some "no idea" |}.
Proof.
  apply (generateAiVote_without_points
           (Examples.runtime (Some "key") "{}" (JsonObject None (Some "no idea")))
           None Examples.login_story "Sarah (Senior Dev)" "Senior Full Stack Engineer"
           (Examples.answering (Some "{}")) "{}" None (Some "no idea"));
    try reflexivity.
  apply list_elem_of_here.
Defined.

End AdapterMore.

(** ** The room hook: events and echoes *)

Section EventsMore.

Import Spec SpecMore UseSupabaseRoom.

Lemma or_else_empty (s : string) : or_else s "" = s.
Proof. unfold or_else, truthy. destruct (String.eqb_spec s ""); simpl; congruence. Qed.

Lemma write_eq (r : Request) (w : World) :
  write r w
  = (Normal tt, withDb (execute r (db w)).1 w,
     Sent r :: (Broadcast <$> (execute r (db w)).2)).
Proof. unfold write. destruct (execute r (db w)). reflexivity. Qed.

Lemma bind_eq {A B} (m : Io A) (k : A -> Io B) (w w1 : World) (a : A) log1 :
  m w = (Normal a, w1, log1) ->
  (m ≫= k) w = ((k a w1).1.1, (k a w1).1.2, (log1 ++ (k a w1).2)%list).
Proof.
  intros E. unfold mbind, Io_bind. rewrite E.
  destruct (k a w1) as [[r2 w2] log2]. reflexivity.
Qed.

Lemma changesOf_cons_Sent (r : Request) (log : list Effect) :
  changesOf (Sent r :: log) = changesOf log.
Proof. reflexivity. Qed.

Lemma changesOf_Broadcast (cs : list Change) : changesOf (Broadcast <$> cs) = cs.
Proof. induction cs as [|c cs IH]; [reflexivity|]. simpl. f_equal. exact IH. Qed.

Lemma changesOf_app (log1 log2 : list Effect) :
  changesOf (log1 ++ log2) = (changesOf log1 ++ changesOf log2)%list.
Proof. apply omap_app. Qed.

Lemma deliver_app roomId (cs1 cs2 : list Change) (s : RoomState) :
  deliver roomId (cs1 ++ cs2) s = deliver roomId cs2 (deliver roomId cs1 s).
Proof. apply fold_left_app. Qed.

(** The deletions of estimates touch the estimate map only: the entries
    under the players of the deleted rows go, the others stay. *)
Lemma deliver_votes_DELETE roomId (rows : list Votes.Row) (s : RoomState) :
  let s' := deliver roomId (votes_DELETE <$> rows) s in
  state_roomId s' = state_roomId s /\ story s' = story s /\ phase s' = phase s
  /\ players s' = players s
  /\ (forall k, votes s' !! k
                = if decide (k ∈ Votes.player_id <$> rows) then None else votes s !! k).
Proof.
  revert s. induction rows as [|row rows IH]; intros s; simpl.
  - repeat split.
  - destruct (IH (onChange roomId (votes_DELETE row) s)) as (H1 & H2 & H3 & H4 & H5).
    simpl in *.
    split; [exact H1|]. split; [exact H2|]. split; [exact H3|]. split; [exact H4|].
    intros k. rewrite H5.
    change (list_fmap Votes.Row string Votes.player_id rows)
      with (Votes.player_id <$> rows).
    destruct (decide (k ∈ Votes.player_id <$> rows)) as [Hin | Hnotin];
      destruct (decide (k ∈ Votes.player_id row :: (Votes.player_id <$> rows)))
        as [Hin' | Hnotin']; try reflexivity.
    + exfalso. apply Hnotin', list_elem_of_further, Hin.
    + apply elem_of_cons in Hin' as [-> | Hin']; [apply lookup_delete_eq|].
      exfalso. exact (Hnotin Hin').
    + apply lookup_delete_ne. intros E. apply Hnotin'. rewrite E. apply list_elem_of_here.
Qed.

Lemma deliver_votes_DELETE_empty roomId (rows : list Votes.Row) (s : RoomState) :
  votes s = ∅ -> votes (deliver roomId (votes_DELETE <$> rows) s) = ∅.
Proof.
  intros E. apply map_eq. intros k.
  destruct (deliver_votes_DELETE roomId rows s) as (_ & _ & _ & _ & H).
  rewrite H, E, lookup_empty. case_decide; reflexivity.
Qed.

(** X6. Estimate events are applied per participant, last write wins: an
    insert or update puts the row under its participant and leaves every
    other entry alone; a second one for the same participant replaces the
    first; a delete for that participant then leaves the map as it was
    without that participant (as it was, when it had no entry there). *)
Theorem votes_events_last_write_wins roomId (row row' old : Votes.Row) (s : RoomState) :
  let p := Votes.player_id row in
  let s1 := onChange roomId (votes_INSERT row) s in
  votes s1 !! p = Some (vote_of_row row)
  /\ (forall k, k <> p -> votes s1 !! k = votes s !! k)
  /\ onChange roomId (votes_UPDATE row) s = s1
  /\ (Votes.player_id row' = p ->
      votes (onChange roomId (votes_UPDATE row') s1) = votes (onChange roomId (votes_INSERT row') s))
  /\ (Votes.player_id old = p ->
      votes (onChange roomId (votes_DELETE old) s1) = delete p (votes s)
      /\ (votes s !! p = None -> votes (onChange roomId (votes_DELETE old) s1) = votes s)).
Proof.
  simpl. split; [apply lookup_insert_eq|]. split.
  - intros k Hk. apply lookup_insert_ne. congruence.
  - split; [reflexivity|]. split.
    + intros ->. apply insert_insert_eq.
    + intros ->. split.
      * apply delete_insert_eq.
      * intros Hnone. rewrite delete_insert_eq. apply delete_id, Hnone.
Qed.

Lemma votes_events_last_write_wins_witness :
  votes (onChange "R1" (votes_DELETE (castRow "R1" "A" (JsNumber 8) None))
           (onChange "R1" (votes_INSERT (castRow "R1" "A" (JsNumber 5) None))
              (roomState Examples.voting)))
  = votes (roomState Examples.voting).
Proof.
  apply (votes_events_last_write_wins "R1"
           (castRow "R1" "A" (JsNumber 5) None) (castRow "R1" "A" (JsNumber 5) None)
           (castRow "R1" "A" (JsNumber 8) None) (roomState Examples.voting));
    reflexivity.
Defined.

Lemma allVoted_no_votes (s : RoomState) :
  votes s = ∅ ->
  players s = [] \/ (exists p, p ∈ players s /\ id p ∉ Object_prototype) ->
  allVoted s = false.
Proof.
  intros E Hplain. destruct (allVoted s) eqn:Hall; [|reflexivity]. exfalso.
  apply allVoted_iff in Hall as [Hne Hall].
  destruct Hplain as [Hnil | (p & Hp & Hin)]; [exact (Hne Hnil)|].
  destruct (Hall p Hp) as [Hv | Hv]; [|exact (Hin Hv)].
  rewrite E, lookup_empty in Hv. exact (is_Some_None Hv).
Qed.

(** What [updatePhase] does, step by step. *)
Lemma updatePhase_eq roomId (next : GamePhase) (w : World) :
  let s1 :=
    {| state_roomId := state_roomId (roomState w);
       story := story (roomState w);
       phase := next;
       players := players (roomState w);
       votes := if decide (next = VOTING) then ∅ else votes (roomState w) |} in
  let u := update_room (phaseOnly next) roomId (db w) in
  let v := if decide (next = VOTING) then delete_votes roomId u.1 else (u.1, []) in
  (updatePhase roomId next w).1.2 = withRoomState s1 (withDb v.1 w)
  /\ changesOf (updatePhase roomId next w).2 = (u.2 ++ v.2)%list.
Proof.
  unfold updatePhase, setRoomState, write, skip, mbind, Io_bind, mret, Io_ret. simpl.
  fold (phaseOnly next).
  destruct (update_room (phaseOnly next) roomId (db w)) as [d1 c1]. simpl.
  destruct next; simpl.
  - split; [reflexivity|]. rewrite !app_nil_r. apply changesOf_Broadcast.
  - split; [reflexivity|].
    change (changesOf ((Broadcast <$> c1)
              ++ Sent (DeleteVotes roomId)
                 :: (Broadcast <$> (votes_DELETE <$> select_votes roomId d1)))
            = (c1 ++ (votes_DELETE <$> select_votes roomId d1))%list).
    rewrite changesOf_app, changesOf_cons_Sent, !changesOf_Broadcast. reflexivity.
  - split; [reflexivity|]. rewrite !app_nil_r. apply changesOf_Broadcast.
Qed.

Lemma updatePhase_echo roomId (next : GamePhase) (w : World) :
  let now := roomState (updatePhase roomId next w).1.2 in
  let echoed := roomState (andEcho roomId (updatePhase roomId next) w) in
  phase echoed = next
  /\ players echoed = players (roomState w)
  /\ votes echoed = votes now
  /\ votes now = (if decide (next = VOTING) then ∅ else votes (roomState w)).
Proof.
  intros now echoed.
  destruct (updatePhase_eq roomId next w) as [Hw Hcs].
  assert (Hnow : votes now = if decide (next = VOTING) then ∅ else votes (roomState w)).
  { subst now. rewrite Hw. reflexivity. }
  split; [|split; [|split; [|exact Hnow]]]; clear Hnow;
    subst echoed now; unfold andEcho;
    destruct (updatePhase roomId next w) as [[r w'] log]; simpl in *; subst w';
    rewrite Hcs, deliver_app; simpl;
    set (s1 := {| state_roomId := _; story := _; phase := next; players := _; votes := _ |});
    assert (Hs2 : let s2 := deliver roomId (update_room (phaseOnly next) roomId (db w)).2 s1 in
                  phase s2 = next /\ players s2 = players (roomState w)
                  /\ votes s2 = votes s1)
      by (unfold update_room; destruct (rooms_table (db w) !! roomId); simpl; repeat split);
    destruct Hs2 as (P1 & P2 & P3);
    set (s2 := deliver roomId _ s1) in *;
    (destruct (decide (next = VOTING)) as [->|Hne]; simpl; [|assumption]);
    destruct (deliver_votes_DELETE roomId
                (select_votes roomId (update_room (phaseOnly VOTING) roomId (db w)).1) s2)
      as (_ & _ & Q3 & Q4 & _).
  - rewrite Q3. exact P1.
  - rewrite Q4. exact P2.
  - rewrite deliver_votes_DELETE_empty; [|rewrite P3]; reflexivity.
Qed.

(** X7. The echo of [updatePhase] does not undo it. After the writes of
    [updatePhase(next)] are echoed, the local phase is still [next], the
    roster is as before, and the estimate map is empty for VOTING and as
    before otherwise. So [allVoted] is the same before and after the echo;
    right after a round is started it is false, unless the roster is not
    empty and every id in it names a property every object inherits
    (which the lookup finds in the empty map too). *)
Theorem updatePhase_echo_keeps roomId (next : GamePhase) (w : World) :
  let now := roomState (updatePhase roomId next w).1.2 in
  let echoed := roomState (andEcho roomId (updatePhase roomId next) w) in
  phase echoed = next
  /\ players echoed = players (roomState w)
  /\ votes echoed = votes now
  /\ votes now = (if decide (next = VOTING) then ∅ else votes (roomState w))
  /\ allVoted echoed = allVoted now
  /\ match next with
     | VOTING =>
       (players (roomState w) = []
        \/ exists p, p ∈ players (roomState w) /\ id p ∉ Object_prototype) ->
       allVoted now = false /\ allVoted echoed = false
     | _ => allVoted echoed = allVoted (roomState w)
     end.
Proof.
  intros now echoed.
  destruct (updatePhase_echo roomId next w) as (E1 & E2 & E3 & Hnow).
  fold now in E3, Hnow. fold echoed in E1, E2, E3.
  assert (Hroster : players now = players (roomState w)).
  { subst now. destruct (updatePhase_eq roomId next w) as [-> _]. reflexivity. }
  assert (Hsame : allVoted echoed = allVoted now).
  { unfold allVoted. rewrite E2, E3, Hroster. reflexivity. }
  split; [exact E1|]. split; [exact E2|]. split; [exact E3|]. split; [exact Hnow|].
  split; [exact Hsame|].
  destruct next.
  - rewrite Hsame. unfold allVoted. rewrite Hroster, Hnow. reflexivity.
  - intros Hplain. rewrite Hsame.
    assert (allVoted now = false) as ->; [|split; reflexivity].
    apply allVoted_no_votes; [exact Hnow | rewrite Hroster; exact Hplain].
  - rewrite Hsame. unfold allVoted. rewrite Hroster, Hnow. reflexivity.
Qed.

(** Ann, alone in the room, starts the round. *)
Lemma updatePhase_echo_keeps_witness :
  allVoted (roomState (updatePhase "R1" VOTING Examples.joined).1.2) = false
  /\ allVoted (roomState (andEcho "R1" (updatePhase "R1" VOTING) Examples.joined)) = false.
Proof.
  apply (updatePhase_echo_keeps "R1" VOTING Examples.joined).
  right. exists Examples.ann. split.
  - apply list_elem_of_here.
  - refine (bool_decide_unpack _ _). vm_compute. exact I.
Defined.

Lemma andEcho_rest roomId (m : Io unit) (w : World) :
  db (andEcho roomId m w) = db (m w).1.2
  /\ currentUser (andEcho roomId m w) = currentUser (m w).1.2
  /\ aiClient (andEcho roomId m w) = aiClient (m w).1.2
  /\ isProcessingAI (andEcho roomId m w) = isProcessingAI (m w).1.2
  /\ roomState (andEcho roomId m w)
     = deliver roomId (changesOf (m w).2) (roomState (m w).1.2).
Proof. unfold andEcho. destruct (m w) as [[r w'] log]. repeat split. Qed.

Lemma updatePhase_rows roomId (next : GamePhase) (w : World) :
  let w' := (updatePhase roomId next w).1.2 in
  currentUser w' = currentUser w
  /\ players_table (db w') = players_table (db w)
  /\ (is_Some (rooms_table (db w) !! roomId) -> is_Some (rooms_table (db w') !! roomId)).
Proof.
  destruct (updatePhase_eq roomId next w) as [-> _]. simpl.
  split; [reflexivity|].
  assert (players_table (update_room (phaseOnly next) roomId (db w)).1 = players_table (db w)
          /\ (is_Some (rooms_table (db w) !! roomId) ->
              is_Some (rooms_table (update_room (phaseOnly next) roomId (db w)).1 !! roomId)))
    as [H1 H2].
  { unfold update_room. destruct (rooms_table (db w) !! roomId) eqn:E; simpl.
    - split; [reflexivity|]. intros _. rewrite lookup_insert_eq. eauto.
    - split; [reflexivity|]. rewrite E. tauto. }
  destruct (decide (next = VOTING)); simpl; auto.
Qed.

(** X8. The round trip of the topic. With the room row in the store,
    after [updateStory(story)] and its echo the local topic is [story],
    the row has its title and description and keeps its phase, and the
    local phase is the phase of the row (the event carries the whole
    row). Without the room row the call changes nothing, locally or in
    the store. The roster and the estimates are untouched either way. *)
Theorem updateStory_round_trip roomId (story' : Story) (w : World) :
  let w' := andEcho roomId (updateStory roomId story') w in
  players (roomState w') = players (roomState w)
  /\ votes (roomState w') = votes (roomState w)
  /\ match rooms_table (db w) !! roomId with
     | Some r =>
       story (roomState w') = story'
       /\ phase (roomState w') = Rooms.phase r
       /\ rooms_table (db w') !! roomId
          = Some {| Rooms.id := Rooms.id r;
                    Rooms.story_title := title story';
                    Rooms.story_description := description story';
                    Rooms.phase := Rooms.phase r |}
     | None => w' = w
     end.
Proof.
  unfold andEcho, updateStory. rewrite write_eq. simpl.
  rewrite changesOf_Broadcast. unfold update_room.
  destruct (rooms_table (db w) !! roomId) as [r|] eqn:E; simpl.
  - rewrite !or_else_empty. repeat split.
    + destruct story'. reflexivity.
    + apply lookup_insert_eq.
  - repeat split. destruct w as [d c u [] b]. reflexivity.
Qed.

End EventsMore.

(** ** The room hook: bootstrap *)

Section Bootstrap.

Import Spec SpecMore UseSupabaseRoom.

(** The whole of the mount effect, for a room id and a name that are not
    empty: the client's world afterwards, and the changes the store
    broadcasts. *)
Lemma mount_eq roomId userId username (w : World) :
  truthy roomId = true ->
  truthy username = true ->
  let user := human userId username in
  let d1 :=
    if rooms_table (db w) !! roomId is Some _ then db w
    else set_rooms <[roomId := emptyRoom roomId]> (db w) in
  let joins := negb (alreadyJoined roomId userId (db w)) in
  let d2 := if joins then (insert_player (playerRow roomId user) d1).1 else d1 in
  let s' :=
    {| state_roomId :=
         if rooms_table (db w) !! roomId is Some _ then roomId
         else state_roomId (roomState w);
       story :=
         if rooms_table (db w) !! roomId is Some r
         then {| title := Rooms.story_title r; description := Rooms.story_description r |}
         else story (roomState w);
       phase :=
         if rooms_table (db w) !! roomId is Some r then Rooms.phase r
         else phase (roomState w);
       players := player_of_row <$> select_players roomId (db w);
       votes := seededVotes (select_votes roomId (db w)) |} in
  (mount roomId userId username w).1
  = (Normal tt,
     {| db := d2; aiClient := aiClient w; currentUser := Some user;
        roomState := s'; isProcessingAI := isProcessingAI w |})
  /\ changesOf (mount roomId userId username w).2
     = (if joins then (insert_player (playerRow roomId user) d1).2 else []).
Proof.
  intros Hroom Hname. unfold mount. rewrite Hroom, Hname. simpl.
  unfold alreadyJoined, loadRoomData, joinRoom, setCurrentUser, setRoomState, select,
    write, skip, mbind, Io_bind, mret, Io_ret. simpl.
  unfold select_room, insert_room. simpl.
  destruct (rooms_table (db w) !! roomId) as [r|] eqn:Er; simpl.
  - unfold select_players at 1 2. simpl.
    destruct (find _ _) as [q|] eqn:Ef; simpl.
    + rewrite !or_else_empty. split; reflexivity.
    + rewrite Er. simpl.
      destruct (insert_player _ (db w)) as [d2 cs] eqn:Ei. simpl.
      assert (votes_table d2 = votes_table (db w)) as Hv.
      { unfold insert_player in Ei. simpl in Ei.
        destruct (players_table (db w) !! userId), (rooms_table (db w) !! roomId);
          injection Ei as <- _; reflexivity. }
      unfold select_votes. simpl. rewrite Hv, !or_else_empty.
      split; [reflexivity|]. rewrite app_nil_r. apply changesOf_Broadcast.
  - rewrite Er. simpl.
    change (select_players roomId (set_rooms <[roomId:=emptyRoom roomId]> (db w)))
      with (select_players roomId (db w)).
    destruct (find _ _) as [q|] eqn:Ef; simpl.
    + split; reflexivity.
    + rewrite lookup_insert_eq. simpl.
      destruct (insert_player _ _) as [d2 cs] eqn:Ei. simpl.
      assert (votes_table d2 = votes_table (db w)) as Hv.
      { unfold insert_player in Ei. simpl in Ei.
        rewrite lookup_insert_eq in Ei.
        destruct (players_table (db w) !! userId); injection Ei as <- _; reflexivity. }
      unfold select_votes. simpl. rewrite Hv.
      split; [reflexivity|]. rewrite app_nil_r. apply changesOf_Broadcast.
Qed.

Lemma elem_of_select_players (rid : string) (d : Db) (row : Players.Row) :
  row ∈ select_players rid d
  <-> Players.room_id row = rid /\ exists k, players_table d !! k = Some row.
Proof.
  unfold select_players. rewrite list_elem_of_filter, list_elem_of_fmap. split.
  - intros [Hrid ([k r] & -> & Hin)]. apply elem_of_map_to_list in Hin. eauto.
  - intros [Hrid [k Hk]]. split; [exact Hrid|].
    exists (k, row). split; [reflexivity | apply elem_of_map_to_list, Hk].
Qed.

Lemma elem_of_select_votes (rid : string) (d : Db) (row : Votes.Row) :
  row ∈ select_votes rid d
  <-> Votes.room_id row = rid /\ exists k, votes_table d !! k = Some row.
Proof.
  unfold select_votes. rewrite list_elem_of_filter, list_elem_of_fmap. split.
  - intros [Hrid ([k r] & -> & Hin)]. apply elem_of_map_to_list in Hin. eauto.
  - intros [Hrid [k Hk]]. split; [exact Hrid|].
    exists (k, row). split; [reflexivity | apply elem_of_map_to_list, Hk].
Qed.

(** The rows fetched for a room have distinct ids, the table being keyed
    by id. *)
Lemma select_players_NoDup (rid : string) (d : Db) :
  players_by_id d -> NoDup (id <$> (player_of_row <$> select_players rid d)).
Proof.
  intros Hd. rewrite <- list_fmap_compose.
  change (id ∘ player_of_row) with Players.id.
  apply (sublist_NoDup _ (Players.id <$> (snd <$> map_to_list (players_table d)))).
  - replace (Players.id <$> (snd <$> map_to_list (players_table d)))
      with ((map_to_list (players_table d)).*1); [apply NoDup_fst_map_to_list|].
    rewrite <- list_fmap_compose. apply list_fmap_ext.
    intros i [k r] Hkr. simpl. symmetry. apply Hd.
    apply elem_of_map_to_list, list_elem_of_lookup. eauto.
  - apply fmap_sublist, sublist_filter.
Qed.

Lemma alreadyJoined_row (rid userId : string) (d : Db) :
  players_by_id d ->
  alreadyJoined rid userId d = true ->
  exists row, players_table d !! userId = Some row /\ Players.room_id row = rid
              /\ Players.type row = HUMAN.
Proof.
  intros Hd. unfold alreadyJoined.
  destruct (find _ _) as [q|] eqn:Ef; [|discriminate]. intros _.
  apply find_some in Ef as [Hq Hid]. apply bool_decide_eq_true in Hid.
  apply list_elem_of_In, list_elem_of_filter in Hq as [Htype Hq].
  apply list_elem_of_fmap in Hq as (row & -> & Hrow).
  apply elem_of_select_players in Hrow as [Hrid [k Hk]].
  exists row. pose proof (Hd k row Hk) as Hkey. simpl in Hid.
  rewrite <- Hid, Hkey. auto.
Qed.

Lemma mount_store roomId userId username (w : World) :
  truthy roomId = true ->
  truthy username = true ->
  players_by_id (db w) ->
  let w' := (mount roomId userId username w).1.2 in
  rooms_table (db w') !! roomId
  = Some (default (emptyRoom roomId) (rooms_table (db w) !! roomId))
  /\ (forall k, k <> roomId -> rooms_table (db w') !! k = rooms_table (db w) !! k)
  /\ is_Some (players_table (db w') !! userId)
  /\ (forall k r, players_table (db w) !! k = Some r -> players_table (db w') !! k = Some r)
  /\ votes_table (db w') = votes_table (db w).
Proof.
  intros Hroom Hname Hd w'.
  destruct (mount_eq roomId userId username w Hroom Hname) as [E _].
  subst w'. rewrite E. clear E. simpl.
  set (d1 := if rooms_table (db w) !! roomId is Some _ then db w
             else set_rooms <[roomId := emptyRoom roomId]> (db w)).
  assert (H1 : rooms_table d1 !! roomId
               = Some (default (emptyRoom roomId) (rooms_table (db w) !! roomId))).
  { subst d1. destruct (rooms_table (db w) !! roomId) eqn:Er; simpl;
      [exact Er | apply lookup_insert_eq]. }
  assert (H2 : forall k, k <> roomId -> rooms_table d1 !! k = rooms_table (db w) !! k).
  { subst d1. intros k Hk. destruct (rooms_table (db w) !! roomId); simpl;
      [reflexivity | apply lookup_insert_ne; congruence]. }
  assert (H3 : players_table d1 = players_table (db w) /\ votes_table d1 = votes_table (db w)).
  { subst d1. destruct (rooms_table (db w) !! roomId); split; reflexivity. }
  destruct H3 as [H3 H4]. clearbody d1.
  destruct (alreadyJoined roomId userId (db w)) eqn:Ej; simpl.
  - destruct (alreadyJoined_row roomId userId (db w) Hd Ej) as (row & Hrow & _).
    rewrite H3, H4. repeat split; eauto.
  - unfold insert_player. simpl. rewrite H1, H3.
    destruct (players_table (db w) !! userId) as [r|] eqn:Eu; simpl.
    + rewrite H3, H4. repeat split; eauto.
    + rewrite H3, H4. repeat split; eauto.
      * rewrite lookup_insert_eq. eauto.
      * intros k r Hk. rewrite lookup_insert_ne; [exact Hk | congruence].
Qed.

(** X9. Opening a room, with a room id and a name that are not empty and
    a participants table keyed by id. Afterwards the user is the current
    user, a human with the resolved id; the room row exists (the one that
    was there, untouched, or else a new one in SETUP with an empty topic)
    and no other room row changed; a participant row under the user's id
    exists and no participant row that was there changed; the estimate
    rows are as they were. *)
Theorem mount_bootstraps roomId userId username (w : World) :
  truthy roomId = true ->
  truthy username = true ->
  players_by_id (db w) ->
  let w' := (mount roomId userId username w).1.2 in
  currentUser w' = Some (human userId username)
  /\ rooms_table (db w') !! roomId
     = Some (default (emptyRoom roomId) (rooms_table (db w) !! roomId))
  /\ (forall k, k <> roomId -> rooms_table (db w') !! k = rooms_table (db w) !! k)
  /\ is_Some (players_table (db w') !! userId)
  /\ (forall k r, players_table (db w) !! k = Some r -> players_table (db w') !! k = Some r)
  /\ votes_table (db w') = votes_table (db w).
Proof.
  intros Hroom Hname Hd w'. split.
  - destruct (mount_eq roomId userId username w Hroom Hname) as [E _].
    subst w'. rewrite E. reflexivity.
  - exact (mount_store roomId userId username w Hroom Hname Hd).
Qed.

Lemma mount_bootstraps_witness :
  let w' := (mount "R1" "A" "Ann" Examples.start).1.2 in
  currentUser w' = Some (human "A" "Ann")
  /\ rooms_table (db w') !! "R1"
     = Some (default (emptyRoom "R1") (rooms_table (db Examples.start) !! "R1"))
  /\ (forall k, k <> "R1" -> rooms_table (db w') !! k = rooms_table (db Examples.start) !! k)
  /\ is_Some (players_table (db w') !! "A")
  /\ (forall k r, players_table (db Examples.start) !! k = Some r ->
                  players_table (db w') !! k = Some r)
  /\ votes_table (db w') = votes_table (db Examples.start).
Proof.
  apply (mount_bootstraps "R1" "A" "Ann" Examples.start); try reflexivity.
  intros k r H. discriminate H.
Defined.

Lemma fold_insert_votes (rows : list Votes.Row) (acc : gmap string Vote) :
  let m := fold_left
             (fun (acc : gmap string Vote) v => <[Votes.player_id v := vote_of_row v]> acc)
             rows acc in
  (forall k v, m !! k = Some v ->
     acc !! k = Some v
     \/ exists row, row ∈ rows /\ Votes.player_id row = k /\ v = vote_of_row row)
  /\ (forall k, is_Some (acc !! k) -> is_Some (m !! k))
  /\ (forall row, row ∈ rows -> is_Some (m !! Votes.player_id row)).
Proof.
  revert acc. induction rows as [|row rows IH]; intros acc; simpl.
  - split; [auto|]. split; [auto|]. intros row Hrow. inversion Hrow.
  - destruct (IH (<[Votes.player_id row := vote_of_row row]> acc)) as (H1 & H2 & H3).
    split; [|split].
    + intros k v Hkv. destruct (H1 k v Hkv) as [Hacc | (row' & Hin & Hk & Hv)].
      * rewrite lookup_insert in Hacc. case_decide as E; [|left; exact Hacc].
        injection Hacc as <-. right. exists row. split; [apply list_elem_of_here | auto].
      * right. exists row'. split; [apply list_elem_of_further, Hin | auto].
    + intros k Hk. apply H2. rewrite lookup_insert. case_decide; eauto.
    + intros row' Hrow'. apply elem_of_cons in Hrow' as [-> | Hrow']; [|exact (H3 row' Hrow')].
      apply H2. rewrite lookup_insert_eq. eauto.
Qed.

(** X10. What opening a room seeds the local projection with, whatever it
    held before: the roster is the participant rows of the room in the
    store (the user's own row only if it was there already); the estimate
    map has an entry under a participant exactly when the store has an
    estimate row of the room for that participant, and each entry is one
    of those rows; the phase and the topic are those of the room row when
    there was one, and stay as they were when the room is new. *)
Theorem mount_seeds_projection roomId userId username (w : World) :
  truthy roomId = true ->
  truthy username = true ->
  let s' := roomState (mount roomId userId username w).1.2 in
  players s' = player_of_row <$> select_players roomId (db w)
  /\ (forall k v, votes s' !! k = Some v ->
        exists key row, votes_table (db w) !! key = Some row
                        /\ Votes.room_id row = roomId
                        /\ Votes.player_id row = k /\ v = vote_of_row row)
  /\ (forall key row, votes_table (db w) !! key = Some row -> Votes.room_id row = roomId ->
        is_Some (votes s' !! Votes.player_id row))
  /\ match rooms_table (db w) !! roomId with
     | Some r =>
       phase s' = Rooms.phase r
       /\ story s' = {| title := Rooms.story_title r;
                        description := Rooms.story_description r |}
     | None => phase s' = phase (roomState w) /\ story s' = story (roomState w)
     end.
Proof.
  intros Hroom Hname s'.
  destruct (mount_eq roomId userId username w Hroom Hname) as [E _].
  subst s'. rewrite E. clear E. simpl.
  destruct (fold_insert_votes (select_votes roomId (db w)) ∅) as (H1 & _ & H3).
  split; [reflexivity|]. split; [|split].
  - intros k v Hkv. destruct (H1 k v Hkv) as [Hacc | (row & Hin & Hk & Hv)].
    + rewrite lookup_empty in Hacc. discriminate.
    + apply elem_of_select_votes in Hin as [Hrid [key Hkey]]. eauto 10.
  - intros key row Hkey Hrid. apply H3, elem_of_select_votes. eauto.
  - destruct (rooms_table (db w) !! roomId); split; reflexivity.
Qed.

Lemma mount_seeds_projection_witness :
  let s' := roomState (mount "R1" "B" "Bob" Examples.voted).1.2 in
  players s' = player_of_row <$> select_players "R1" (db Examples.voted)
  /\ (forall k v, votes s' !! k = Some v ->
        exists key row, votes_table (db Examples.voted) !! key = Some row
                        /\ Votes.room_id row = "R1"
                        /\ Votes.player_id row = k /\ v = vote_of_row row)
  /\ (forall key row, votes_table (db Examples.voted) !! key = Some row ->
        Votes.room_id row = "R1" -> is_Some (votes s' !! Votes.player_id row))
  /\ match rooms_table (db Examples.voted) !! "R1" with
     | Some r =>
       phase s' = Rooms.phase r
       /\ story s' = {| title := Rooms.story_title r;
                        description := Rooms.story_description r |}
     | None => phase s' = phase (roomState Examples.voted)
               /\ story s' = story (roomState Examples.voted)
     end.
Proof.
  apply (mount_seeds_projection "R1" "B" "Bob" Examples.voted); reflexivity.
Defined.

(** The two halves of [loadRoomData], run one after the other with
    nothing in between, are [loadRoomData]. *)
Lemma loadRoomData_split (rid userId : string) (userData : Player) (w : World) :
  loadRoomData rid userId userData w
  = (loadRoomData_join rid userId userData ≫= loadRoomData_rest rid) w.
Proof.
  unfold loadRoomData, loadRoomData_join, loadRoomData_rest, joinRoom, setRoomState,
    select, write, skip, mbind, Io_bind, mret, Io_ret. cbn [fst snd].
  destruct (select_room rid (db w)) as [room|]; cbn [db roomState execute].
  - destruct (find _ _) as [q|]; cbn [db roomState].
    + reflexivity.
    + destruct (select_room rid (db w)) as [room'|]; cbn [db roomState execute].
      * destruct (insert_player _ _) as [d2 cs]. cbn [db roomState fst snd].
        rewrite !app_nil_r, <- ?app_assoc. reflexivity.
      * destruct (insert_room _ _) as [d1 cs1]. cbn [db roomState fst snd].
        destruct (insert_player _ _) as [d2 cs]. cbn [db roomState fst snd].
        rewrite !app_nil_r, <- ?app_assoc. reflexivity.
  - destruct (insert_room _ _) as [d1 cs1]. cbn [db roomState fst snd].
    destruct (find _ _) as [q|]; cbn [db roomState].
    + rewrite !app_nil_r, <- ?app_assoc. reflexivity.
    + destruct (select_room rid d1) as [room'|]; cbn [db roomState execute].
      * destruct (insert_player _ _) as [d2 cs]. cbn [db roomState fst snd].
        rewrite !app_nil_r, <- ?app_assoc. reflexivity.
      * destruct (insert_room _ _) as [d1' cs1']. cbn [db roomState fst snd].
        destruct (insert_player _ _) as [d2 cs]. cbn [db roomState fst snd].
        rewrite !app_nil_r, <- ?app_assoc. reflexivity.
Qed.

Lemma loadRoomData_join_result (rid userId : string) (userData : Player) (w : World) :
  (loadRoomData_join rid userId userData w).1.1
  = Normal (player_of_row <$> select_players rid (db w)).
Proof.
  unfold loadRoomData_join, joinRoom, setRoomState, select, write, skip, mbind, Io_bind,
    mret, Io_ret. simpl.
  unfold select_room, insert_room. simpl.
  destruct (rooms_table (db w) !! rid) as [room|] eqn:Er; simpl.
  - destruct (find _ _) as [q|]; simpl; [reflexivity|].
    rewrite Er. simpl. destruct (insert_player _ _) as [d2 cs]. reflexivity.
  - rewrite Er. simpl.
    change (select_players rid (set_rooms <[rid:=emptyRoom rid]> (db w)))
      with (select_players rid (db w)).
    destruct (find _ _) as [q|]; simpl; [reflexivity|].
    rewrite lookup_insert_eq. simpl.
    destruct (insert_player _ _) as [d2 cs]. reflexivity.
Qed.

Lemma loadRoomData_rest_eq (rid : string) (players' : list Player) (w : World) :
  db (loadRoomData_rest rid players' w).1.2 = db w
  /\ players (roomState (loadRoomData_rest rid players' w).1.2) = players'.
Proof. split; reflexivity. Qed.

Lemma mount_unfold roomId userId username (w : World) :
  truthy roomId = true ->
  truthy username = true ->
  mount roomId userId username w
  = loadRoomData roomId userId (human userId username)
      (setCurrentUser (human userId username) w).1.2.
Proof.
  intros Hroom Hname. unfold mount. rewrite Hroom, Hname. cbn [negb orb].
  fold (human userId username).
  rewrite (bind_eq (setCurrentUser (human userId username)) _ w
             (setCurrentUser (human userId username) w).1.2 tt [] eq_refl).
  cbn [app]. destruct (loadRoomData _ _ _ _) as [[r2 w2] log2]. reflexivity.
Qed.

Lemma mount_echo_first_unfold roomId userId username (w : World) :
  truthy roomId = true ->
  truthy username = true ->
  let user := human userId username in
  let w0 := (setCurrentUser user w).1.2 in
  let j := loadRoomData_join roomId userId user w0 in
  mount_echo_first roomId userId username w
  = (loadRoomData_rest roomId (player_of_row <$> select_players roomId (db w))
       (withRoomState (deliver roomId (changesOf j.2) (roomState j.1.2)) j.1.2)).1.2.
Proof.
  intros Hroom Hname user w0 j.
  pose proof (loadRoomData_join_result roomId userId user w0) as Hres. fold j in Hres.
  unfold mount_echo_first. rewrite Hroom, Hname. cbn [negb orb].
  fold (human userId username). fold user.
  rewrite (bind_eq (setCurrentUser user) _ w w0 tt [] eq_refl).
  cbn [app]. fold j. destruct j as [[r w1] log1]. cbn [fst snd] in Hres |- *.
  rewrite Hres. reflexivity.
Qed.

(** X11. Join on demand, and the race with its echo. A room is opened
    with a room id and a name that are not empty, the participants table
    being keyed by id. When the echo of the insertion is applied after the
    load has finished, the roster is the participants fetched for the
    room, followed by the user when (and only when) no participant row had
    the user's id, and its ids are distinct: a reload does not add the
    user a second time. When the echo is applied as soon as [joinRoom]
    returns, line 203 overwrites it: the roster is the participants
    fetched and nothing else, so a user who has just joined has a row in
    the store (the same store in both orders) and no entry in the own
    roster. *)
Theorem mount_joins_once roomId userId username (w : World) :
  truthy roomId = true ->
  truthy username = true ->
  players_by_id (db w) ->
  let fetched := player_of_row <$> select_players roomId (db w) in
  let late := andEcho roomId (mount roomId userId username) w in
  let early := mount_echo_first roomId userId username w in
  (players (roomState late)
   = (fetched
      ++ (if players_table (db w) !! userId is None then [human userId username]
          else []))%list
   /\ NoDup (id <$> players (roomState late)))
  /\ (players (roomState early) = fetched
      /\ db early = db late
      /\ (players_table (db w) !! userId = None ->
          is_Some (players_table (db early) !! userId)
          /\ userId ∉ id <$> players (roomState early))).
Proof.
  intros Hroom Hname Hd fetched late early.
  assert (E : players (roomState late)
    = (fetched
       ++ (if players_table (db w) !! userId is None then [human userId username]
           else []))%list).
  { subst late fetched.
    destruct (andEcho_rest roomId (mount roomId userId username) w) as (_ & _ & _ & _ & ->).
    destruct (mount_eq roomId userId username w Hroom Hname) as [E Hcs].
    rewrite Hcs. clear Hcs.
    destruct (mount roomId userId username w) as [[r w'] log]. simpl in E.
    injection E as _ ->. simpl.
    destruct (alreadyJoined roomId userId (db w)) eqn:Ej; simpl.
    - destruct (alreadyJoined_row roomId userId (db w) Hd Ej) as (row & -> & _).
      rewrite app_nil_r. reflexivity.
    - unfold insert_player. simpl.
      assert (Hr : is_Some (rooms_table
        (if rooms_table (db w) !! roomId is Some _ then db w
         else set_rooms <[roomId:=emptyRoom roomId]> (db w)) !! roomId)).
      { destruct (rooms_table (db w) !! roomId) eqn:Er; simpl;
          [rewrite Er | rewrite lookup_insert_eq]; eauto. }
      assert (Hp : players_table
        (if rooms_table (db w) !! roomId is Some _ then db w
         else set_rooms <[roomId:=emptyRoom roomId]> (db w)) = players_table (db w)).
      { destruct (rooms_table (db w) !! roomId); reflexivity. }
      destruct Hr as [room Hr]. rewrite Hr, Hp.
      destruct (players_table (db w) !! userId); simpl;
        [rewrite app_nil_r|]; reflexivity. }
  assert (Hfresh : players_table (db w) !! userId = None -> userId ∉ id <$> fetched).
  { intros Eu Hi. subst fetched.
    apply list_elem_of_fmap in Hi as (q & Hq & Hin).
    apply list_elem_of_fmap in Hin as (row & -> & Hrow).
    apply elem_of_select_players in Hrow as [_ [k Hk]].
    pose proof (Hd k row Hk) as Hkey. simpl in Hq. rewrite <- Hq in Hkey. subst k.
    congruence. }
  split.
  { split; [exact E|]. rewrite E, fmap_app. apply NoDup_app.
    split; [apply select_players_NoDup, Hd|]. split.
    - intros i Hi Hi'.
      destruct (players_table (db w) !! userId) eqn:Eu; [inversion Hi'|].
      apply list_elem_of_singleton in Hi'. simpl in Hi'. subst i.
      exact (Hfresh eq_refl Hi).
    - destruct (players_table (db w) !! userId);
        [apply NoDup_nil_2 | apply NoDup_singleton]. }
  (* the echo first *)
  pose proof (mount_echo_first_unfold roomId userId username w Hroom Hname) as Hearly.
  fold early in Hearly. cbv zeta in Hearly.
  assert (Hdb : db early = db late).
  { destruct (andEcho_rest roomId (mount roomId userId username) w) as (Hl & _).
    unfold late.
    rewrite Hl, (mount_unfold roomId userId username w Hroom Hname),
      loadRoomData_split, Hearly.
    pose proof (loadRoomData_join_result roomId userId (human userId username)
                  (setCurrentUser (human userId username) w).1.2) as Hres.
    unfold mbind, Io_bind.
    destruct (loadRoomData_join _ _ _ _) as [[r w1] log1].
    cbn [fst snd] in Hres |- *. rewrite Hres. reflexivity. }
  split; [rewrite Hearly; reflexivity|]. split; [exact Hdb|].
  intros Eu. split.
  - rewrite Hdb. unfold late.
    destruct (andEcho_rest roomId (mount roomId userId username) w) as (-> & _).
    destruct (mount_store roomId userId username w Hroom Hname Hd) as (_ & _ & Hrow & _).
    exact Hrow.
  - rewrite Hearly. exact (Hfresh Eu).
Qed.

Lemma mount_joins_once_witness :
  let fetched := player_of_row <$> select_players "R1" (db Examples.voted) in
  let late := andEcho "R1" (mount "R1" "B" "Bob") Examples.voted in
  let early := mount_echo_first "R1" "B" "Bob" Examples.voted in
  (players (roomState late) = (fetched ++ [human "B" "Bob"])%list
   /\ NoDup (id <$> players (roomState late)))
  /\ (players (roomState early) = fetched
      /\ db early = db late
      /\ is_Some (players_table (db early) !! "B")
      /\ "B" ∉ id <$> players (roomState early)).
Proof.
  assert (Hd : players_by_id (db Examples.voted)).
  { change (map_Forall (fun k r => Players.id r = k) (players_table (db Examples.voted))).
    refine (bool_decide_unpack _ _). vm_compute. exact I. }
  destruct (mount_joins_once "R1" "B" "Bob" Examples.voted eq_refl eq_refl Hd)
    as (Hlate & Hroster & Hsame & Hmissing).
  split; [exact Hlate|]. split; [exact Hroster|]. split; [exact Hsame|].
  exact (Hmissing eq_refl).
Defined.

(** X12. Open, start, vote. From any state of the client and of the store
    (participants keyed by id), with a room id and a name that are not
    empty: the user opens the room, starts the round and casts [v], each
    followed by its echo. Then the phase is VOTING, the estimate map holds
    exactly one entry, the user's, with the value [v.toString()], and the
    store holds the row of that vote. *)
Theorem open_start_vote roomId userId username (v : JsValue) (w : World) :
  truthy roomId = true ->
  truthy username = true ->
  players_by_id (db w) ->
  let w1 := andEcho roomId (mount roomId userId username) w in
  let w2 := andEcho roomId (updatePhase roomId VOTING) w1 in
  let w3 := andEcho roomId (handleVote roomId v) w2 in
  phase (roomState w3) = VOTING
  /\ votes (roomState w3)
     = {[ userId := {| playerId := userId; value := JsString (toString v);
                       Types.reasoning := None |} ]}
  /\ votes_table (db w3) !! (roomId ++ "-" ++ userId) = Some (castRow roomId userId v None).
Proof.
  intros Hroom Hname Hd w1 w2 w3.
  (* after the room is opened *)
  destruct (andEcho_rest roomId (mount roomId userId username) w)
    as (Hdb1 & Hu1 & _ & _ & _). fold w1 in Hdb1, Hu1.
  destruct (mount_eq roomId userId username w Hroom Hname) as [E _].
  assert (Hu1' : currentUser w1 = Some (human userId username)).
  { rewrite Hu1, E. reflexivity. }
  destruct (mount_store roomId userId username w Hroom Hname Hd) as (Hr1 & _ & Hp1 & _ & _).
  rewrite <- Hdb1 in Hr1, Hp1. clear E Hu1 Hdb1.
  (* after the round is started *)
  destruct (andEcho_rest roomId (updatePhase roomId VOTING) w1) as (Hdb2 & Hu2 & _ & _ & _).
  fold w2 in Hdb2, Hu2.
  destruct (updatePhase_rows roomId VOTING w1) as (Hu & Hp & Hr).
  destruct (updatePhase_echo roomId VOTING w1) as (Hphase2 & _ & Hvotes2 & Hnow).
  fold w2 in Hphase2, Hvotes2. rewrite Hnow in Hvotes2. simpl in Hvotes2.
  assert (Hu2' : currentUser w2 = Some (human userId username)) by congruence.
  assert (Hr2 : is_Some (rooms_table (db w2) !! roomId)).
  { rewrite Hdb2. apply Hr. rewrite Hr1. eauto. }
  assert (Hp2 : is_Some (players_table (db w2) !! id (human userId username))).
  { rewrite Hdb2, Hp. exact Hp1. }
  (* the vote and its echo *)
  pose proof (handleVote_echo roomId w2 (human userId username) v Hu2' Hphase2 Hr2 Hp2) as E3.
  fold w3 in E3. rewrite E3. simpl.
  split; [exact Hphase2|]. split.
  - rewrite Hvotes2. reflexivity.
  - apply lookup_insert_eq.
Qed.

Lemma open_start_vote_witness :
  let w1 := andEcho "R1" (mount "R1" "B" "Bob") Examples.voted in
  let w2 := andEcho "R1" (updatePhase "R1" VOTING) w1 in
  let w3 := andEcho "R1" (handleVote "R1" (JsNumber 13)) w2 in
  phase (roomState w3) = VOTING
  /\ votes (roomState w3)
     = {[ "B" := {| playerId := "B"; value := JsString (toString (JsNumber 13));
                    Types.reasoning := None |} ]}
  /\ votes_table (db w3) !! "R1-B" = Some (castRow "R1" "B" (JsNumber 13) None).
Proof.
  apply (open_start_vote "R1" "B" "Bob" (JsNumber 13) Examples.voted); try reflexivity.
  change (map_Forall (fun k r => Players.id r = k) (players_table (db Examples.voted))).
  refine (bool_decide_unpack _ _). vm_compute. exact I.
Defined.

End Bootstrap.

(** ** The room hook: leaving, and adding simulated participants *)

Section LeaveAndAdd.

Import Spec SpecMore UseSupabaseRoom.

(** X13. Leaving, with the participants table keyed by id. When the store
    has the user's participant row for this room: after [leaveRoom] and
    its echo the store has neither that row nor any estimate row of the
    user, the roster is the old one without the entries of the user's id,
    no estimate of the map names the user, and every estimate that
    neither is under the user's id nor names the user is as before. When
    the store has no such row (none, or one of another room) nothing
    changes at all. *)
Theorem leaveRoom_echo roomId userId (w : World) :
  players_by_id (db w) ->
  let w' := andEcho roomId (leaveRoom roomId userId) w in
  match players_table (db w) !! userId with
  | Some r =>
    if decide (Players.room_id r = roomId) then
      players_table (db w') !! userId = None
      /\ (forall key row, votes_table (db w') !! key = Some row ->
                          Votes.player_id row <> userId)
      /\ players (roomState w') = filter (fun p => id p ≠ userId) (players (roomState w))
      /\ (forall k v, votes (roomState w') !! k = Some v -> playerId v <> userId)
      /\ (forall k v, k <> userId -> playerId v <> userId ->
                      votes (roomState w) !! k = Some v ->
                      votes (roomState w') !! k = Some v)
    else w' = w
  | None => w' = w
  end.
Proof.
  intros Hd w'. subst w'. unfold andEcho, leaveRoom. rewrite write_eq. simpl.
  rewrite changesOf_Broadcast. unfold delete_player.
  destruct (players_table (db w) !! userId) as [r|] eqn:Er; simpl;
    [|destruct w as [d c u [] b]; reflexivity].
  destruct (decide (Players.room_id r = roomId)) as [Hrid|Hrid]; simpl;
    [|destruct w as [d c u [] b]; reflexivity].
  pose proof (Hd userId r Er) as Hkey.
  rewrite deliver_app. simpl. rewrite Hkey.
  set (cascade := filter (fun r0 => Votes.player_id r0 = userId)
                    (snd <$> map_to_list (votes_table (db w)))).
  destruct (deliver_votes_DELETE roomId cascade (roomState w)) as (_ & _ & _ & Q4 & Q5).
  set (s1 := deliver roomId (votes_DELETE <$> cascade) (roomState w)) in *.
  assert (Hcascade : forall k, k ∈ Votes.player_id <$> cascade -> k = userId).
  { intros k Hk. apply list_elem_of_fmap in Hk as (row & -> & Hrow).
    apply list_elem_of_filter in Hrow as [Hrow _]. exact Hrow. }
  split; [apply lookup_delete_eq|]. split; [|split; [|split]].
  - intros key row Hrow. apply map_lookup_filter_Some in Hrow as [_ Hne]. exact Hne.
  - rewrite Q4. reflexivity.
  - intros k v Hkv. apply map_lookup_filter_Some in Hkv as [_ Hne]. exact Hne.
  - intros k v Hk Hv Hkv. apply map_lookup_filter_Some. split; [|exact Hv].
    rewrite Q5. case_decide as Hin; [|exact Hkv].
    exfalso. exact (Hk (Hcascade k Hin)).
Qed.

Lemma leaveRoom_echo_witness :
  let w := Examples.voted in
  let w' := andEcho "R1" (leaveRoom "R1" "A") w in
  players_table (db w') !! "A" = None
  /\ (forall key row, votes_table (db w') !! key = Some row -> Votes.player_id row <> "A")
  /\ players (roomState w') = filter (fun p => id p ≠ "A") (players (roomState w))
  /\ (forall k v, votes (roomState w') !! k = Some v -> playerId v <> "A")
  /\ (forall k v, k <> "A" -> playerId v <> "A" ->
                  votes (roomState w) !! k = Some v ->
                  votes (roomState w') !! k = Some v).
Proof.
  assert (H : players_by_id (db Examples.voted)).
  { change (map_Forall (fun k r => Players.id r = k) (players_table (db Examples.voted))).
    refine (bool_decide_unpack _ _). vm_compute. exact I. }
  exact (leaveRoom_echo "R1" "A" Examples.voted H).
Defined.

(** The loop of [addAiPlayers] over the personas it selected, against the
    ids it read from the roster before the loop: it sends one insert for
    each persona whose id is not among them, in order, leaves the state
    of the hook alone, and the store announces the inserts it accepted. *)
Lemma addAiPlayers_loop roomId (ids : list string) (l : list AiPersona) :
  forall w : World,
    exists w' log added,
      forEach
        (fun persona =>
           if bool_decide (persona_id persona ∈ ids) then skip
           else write (InsertPlayer (personaRow roomId persona))) l w
      = (Normal tt, w', log)
      /\ roomState w' = roomState w
      /\ requests log
         = (InsertPlayer ∘ personaRow roomId)
             <$> filter (fun p => persona_id p ∉ ids) l
      /\ added `sublist_of` filter (fun p => persona_id p ∉ ids) l
      /\ changesOf log = (players_INSERT ∘ personaRow roomId) <$> added.
Proof.
  induction l as [|x rest IH]; intros w.
  - exists w, [], []. repeat split. constructor.
  - cbn [forEach]. rewrite filter_cons.
    destruct (decide (persona_id x ∉ ids)) as [Hx|Hx].
    + rewrite bool_decide_eq_false_2 by exact Hx.
      destruct (IH (withDb (execute (InsertPlayer (personaRow roomId x)) (db w)).1 w))
        as (w' & log & added & E & Hs & Hr & Hsub & Hc).
      rewrite (bind_eq _ _ _ _ _ _ (write_eq _ w)), E. cbn [fst snd].
      set (row := personaRow roomId x) in *.
      set (cs := (execute (InsertPlayer row) (db w)).2).
      assert (Hcs : cs = [players_INSERT row] \/ cs = []).
      { subst cs. cbn [execute]. unfold insert_player.
        destruct (players_table (db w) !! Players.id row),
          (rooms_table (db w) !! Players.room_id row); auto. }
      assert (Hreq : requests ((Sent (InsertPlayer row) :: (Broadcast <$> cs)) ++ log)
                     = InsertPlayer row :: requests log).
      { change (InsertPlayer row :: requests ((Broadcast <$> cs) ++ log)
                = InsertPlayer row :: requests log).
        f_equal. unfold requests at 1. rewrite omap_app.
        change (omap _ (Broadcast <$> cs)) with (requests (Broadcast <$> cs)).
        rewrite requests_Broadcast. reflexivity. }
      assert (Hch : changesOf ((Sent (InsertPlayer row) :: (Broadcast <$> cs)) ++ log)
                    = (cs ++ changesOf log)%list).
      { rewrite changesOf_app, changesOf_cons_Sent, changesOf_Broadcast. reflexivity. }
      destruct Hcs as [Hcs|Hcs].
      * exists w', ((Sent (InsertPlayer row) :: (Broadcast <$> cs)) ++ log)%list, (x :: added).
        split; [reflexivity|]. split; [exact Hs|]. split; [rewrite Hreq, Hr; reflexivity|].
        split; [apply sublist_skip, Hsub|]. rewrite Hch, Hcs, Hc. reflexivity.
      * exists w', ((Sent (InsertPlayer row) :: (Broadcast <$> cs)) ++ log)%list, added.
        split; [reflexivity|]. split; [exact Hs|]. split; [rewrite Hreq, Hr; reflexivity|].
        split; [apply sublist_cons, Hsub|]. rewrite Hch, Hcs, Hc. reflexivity.
    + apply dec_stable in Hx. rewrite bool_decide_eq_true_2 by exact Hx.
      destruct (IH w) as (w' & log & added & E & Hs & Hr & Hsub & Hc).
      assert (Eskip : skip w = (Normal tt, w, [])) by reflexivity.
      rewrite (bind_eq _ _ _ _ _ _ Eskip), E. simpl.
      exists w', log, added. repeat split; assumption.
Qed.

(** Events that append participants append them to the roster, in
    order. *)
Lemma deliver_players_INSERT roomId (rows : list Players.Row) (s : RoomState) :
  players (deliver roomId (players_INSERT <$> rows) s)
  = (players s ++ (player_of_row <$> rows))%list.
Proof.
  revert s. induction rows as [|row rows IH]; intros s; simpl.
  - rewrite app_nil_r. reflexivity.
  - change (players (deliver roomId (players_INSERT <$> rows)
                       (onChange roomId (players_INSERT row) s))
            = (players s ++ player_of_row row :: (player_of_row <$> rows))%list).
    rewrite IH. simpl. rewrite <- app_assoc. reflexivity.
Qed.

(** X14. Adding simulated participants, from a roster without two entries
    of one id and a catalog order without two personas of one id: the
    operation sends an insert for exactly those of the first three
    personas whose id the roster does not have (none without a current
    user or a room id), and after the echo the roster is the old one
    followed by the personas the store accepted, a sub-list of those
    three, and still has no two entries of one id. *)
Theorem addAiPlayers_echo roomId (shuffled : list AiPersona) (w : World) :
  NoDup (persona_id <$> shuffled) ->
  NoDup (id <$> players (roomState w)) ->
  let w' := andEcho roomId (addAiPlayers roomId shuffled) w in
  requests (addAiPlayers roomId shuffled w).2
  = (if bool_decide (currentUser w = None) || negb (truthy roomId) then []
     else (InsertPlayer ∘ personaRow roomId)
            <$> filter (fun p => persona_id p ∉ id <$> players (roomState w))
                  (take 3 shuffled))
  /\ (exists added,
        added `sublist_of` take 3 shuffled
        /\ players (roomState w')
           = (players (roomState w)
              ++ ((player_of_row ∘ personaRow roomId) <$> added))%list)
  /\ NoDup (id <$> players (roomState w')).
Proof.
  intros Hcat Hroster w'.
  assert (Hrender : render w = (Normal w, w, [])) by reflexivity.
  destruct (andEcho_rest roomId (addAiPlayers roomId shuffled) w) as (_ & _ & _ & _ & Hs).
  fold w' in Hs. revert Hs. unfold addAiPlayers.
  rewrite (bind_eq _ _ _ _ _ _ Hrender). cbn [fst snd app].
  destruct (bool_decide (currentUser w = None) || negb (truthy roomId)).
  - simpl. intros Hs. split; [reflexivity|]. rewrite Hs. split; [|exact Hroster].
    exists []. split; [apply sublist_nil_l|]. rewrite app_nil_r. reflexivity.
  - destruct (addAiPlayers_loop roomId (id <$> players (roomState w)) (take 3 shuffled) w)
      as (w1 & log & added & E & Hst & Hr & Hsub & Hc).
    change (forEach _ (take 3 shuffled) w) with
      (forEach
         (fun persona =>
            if bool_decide (persona_id persona ∈ id <$> players (roomState w)) then skip
            else write (InsertPlayer (personaRow roomId persona))) (take 3 shuffled) w).
    rewrite E. cbn [fst snd]. rewrite Hc, Hst. intros Hs.
    assert (Hp : players (roomState w')
                 = (players (roomState w)
                    ++ ((player_of_row ∘ personaRow roomId) <$> added))%list).
    { rewrite Hs, (list_fmap_compose (personaRow roomId) players_INSERT),
        deliver_players_INSERT, <- list_fmap_compose. reflexivity. }
    split; [exact Hr|].
    assert (Hsub3 : added `sublist_of` take 3 shuffled)
      by (etrans; [exact Hsub | apply sublist_filter]).
    split; [exists added; split; [exact Hsub3 | exact Hp]|].
    rewrite Hp, fmap_app, <- list_fmap_compose.
    change (id ∘ (player_of_row ∘ personaRow roomId)) with persona_id.
    apply NoDup_app. split; [exact Hroster|]. split.
    + intros i Hi Hadd. apply list_elem_of_fmap in Hadd as (p & -> & Hp0).
      assert (Hp' : p ∈ filter (fun p => persona_id p ∉ id <$> players (roomState w))
                      (take 3 shuffled)) by (eapply elem_of_sublist; eassumption).
      apply list_elem_of_filter in Hp' as [Hp' _]. exact (Hp' Hi).
    + eapply sublist_NoDup; [exact Hcat|].
      apply fmap_sublist. etrans; [exact Hsub3 | apply sublist_take].
Qed.

Lemma addAiPlayers_echo_witness :
  let w := Examples.voted in
  let w' := andEcho "R1" (addAiPlayers "R1" AI_PERSONAS) w in
  requests (addAiPlayers "R1" AI_PERSONAS w).2
  = (if bool_decide (currentUser w = None) || negb (truthy "R1") then []
     else (InsertPlayer ∘ personaRow "R1")
            <$> filter (fun p => persona_id p ∉ id <$> players (roomState w))
                  (take 3 AI_PERSONAS))
  /\ (exists added,
        added `sublist_of` take 3 AI_PERSONAS
        /\ players (roomState w')
           = (players (roomState w)
              ++ ((player_of_row ∘ personaRow "R1") <$> added))%list)
  /\ NoDup (id <$> players (roomState w')).
Proof.
  apply (addAiPlayers_echo "R1" AI_PERSONAS Examples.voted).
  - refine (bool_decide_unpack _ _). vm_compute. exact I.
  - refine (bool_decide_unpack _ _). vm_compute. exact I.
Defined.

End LeaveAndAdd.

(** ** The scheduler: a pass brings it to rest *)

Section Quiescence.

Import Spec SpecMore UseSupabaseRoom.

Lemma generateAiVote_step rt story personaName personaRole (w : World) :
  exists result c,
    generateAiVote rt story personaName personaRole w
    = (Normal result,
       {| db := db w; aiClient := c; currentUser := currentUser w;
          roomState := roomState w; isProcessingAI := isProcessingAI w |},
       [Call_generateAiVote story personaName personaRole])
    /\ GeminiService.points result ∈ GeminiService.validPoints.
Proof.
  unfold generateAiVote.
  destruct (generateAiVote_returns rt (aiClient w) story personaName personaRole)
    as [v Hv].
  pose proof (generateAiVote_in_scale rt (aiClient w) story personaName personaRole v Hv)
    as Hscale.
  destruct (GeminiService.generateAiVote _ _ _ _ _) as [r c]. simpl in Hv. subst r.
  exists v, c. split; [reflexivity | exact Hscale].
Qed.

Lemma upsert_vote_accepted (row : Votes.Row) (d : Db) :
  is_Some (rooms_table d !! Votes.room_id row) ->
  is_Some (players_table d !! Votes.player_id row) ->
  exists c,
    upsert_vote row d = (set_votes <[Votes.id row := row]> d, [c])
    /\ (c = votes_INSERT row \/ c = votes_UPDATE row).
Proof.
  intros [r Hr] [q Hq]. unfold upsert_vote. rewrite Hr, Hq.
  destruct (votes_table d !! Votes.id row); eexists; split; eauto.
Qed.

Lemma find_persona (k : string) (l : list AiPersona) :
  k ∈ persona_id <$> l ->
  is_Some (find (fun p => bool_decide (persona_id p = k)) l).
Proof.
  induction l as [|x l IH]; simpl; intros Hk.
  - inversion Hk.
  - case_bool_decide as Hx; [eauto|].
    apply elem_of_cons in Hk as [Hk|Hk]; [congruence | exact (IH Hk)].
Qed.

(** A pass over simulated participants that all have a row in the store
    and a persona in the catalog, in a room the store has: every vote is
    accepted, and once the changes are delivered each of them has an
    estimate of the scale under its id; nothing else of the state
    moves. *)
Lemma forAiPlayers_votes roomId rt story (aiPlayers : list Player) :
  forall (i : nat) (w : World),
    is_Some (rooms_table (db w) !! roomId) ->
    (forall p, p ∈ aiPlayers ->
               is_Some (players_table (db w) !! id p)
               /\ id p ∈ persona_id <$> AI_PERSONAS) ->
    exists w' log,
      forAiPlayers roomId rt story i aiPlayers w = (Normal tt, w', log)
      /\ roomState w' = roomState w
      /\ isProcessingAI w' = isProcessingAI w
      /\ forall s,
          let s' := deliver roomId (changesOf log) s in
          phase s' = phase s /\ players s' = players s
          /\ (forall k, k ∈ id <$> aiPlayers ->
                        exists v, votes s' !! k = Some v /\ scaleEstimate v)
          /\ (forall k, k ∉ id <$> aiPlayers -> votes s' !! k = votes s !! k).
Proof.
  induction aiPlayers as [|player rest IH]; intros i w Hroom Hrows; cbn [forAiPlayers].
  - exists w, []. repeat split. intros k Hk. inversion Hk.
  - destruct (Hrows player (list_elem_of_here _ _)) as [Hrow Hcat].
    destruct (find_persona _ _ Hcat) as [aiPersona ->].
    destruct (generateAiVote_step (rt i) story (persona_name aiPersona) (role aiPersona) w)
      as (result & c & E1 & Hscale).
    rewrite (bind_eq _ _ _ _ _ _ E1).
    set (w1 := {| db := db w; aiClient := c; currentUser := currentUser w;
                  roomState := roomState w; isProcessingAI := isProcessingAI w |}) in *.
    set (row := {| Votes.id := roomId ++ "-" ++ id player;
                   Votes.room_id := roomId;
                   Votes.player_id := id player;
                   Votes.value :=
                     JsString (toString (JsNumber (GeminiService.points result)));
                   Votes.reasoning := GeminiService.reasoning result |}).
    destruct (upsert_vote_accepted row (db w) Hroom Hrow) as (ev & Eup & Hev).
    assert (E2 : write (UpsertVote row) w1
                 = (Normal tt, withDb (set_votes <[Votes.id row := row]> (db w)) w1,
                    [Sent (UpsertVote row); Broadcast ev])).
    { rewrite write_eq. cbn [execute]. change (db w1) with (db w). rewrite Eup.
      reflexivity. }
    rewrite (bind_eq _ _ _ _ _ _ E2).
    destruct (IH (S i) (withDb (set_votes <[Votes.id row := row]> (db w)) w1))
      as (w' & log & E3 & Hst & Hbusy & Hdeliver).
    { exact Hroom. }
    { intros p Hp. exact (Hrows p (list_elem_of_further _ _ _ Hp)). }
    rewrite E3. cbn [fst snd].
    eexists _, _. split; [reflexivity|]. split; [exact Hst|]. split; [exact Hbusy|].
    intros s. rewrite !changesOf_app.
    change (changesOf [Call_generateAiVote story (persona_name aiPersona) (role aiPersona)])
      with (@nil Change).
    change (changesOf [Sent (UpsertVote row); Broadcast ev]) with [ev].
    cbn [app].
    change (deliver roomId (ev :: changesOf log) s)
      with (deliver roomId (changesOf log) (onChange roomId ev s)).
    set (s1 := onChange roomId ev s).
    assert (Hs1 : phase s1 = phase s /\ players s1 = players s
                  /\ votes s1 = <[id player := vote_of_row row]> (votes s)).
    { subst s1. destruct Hev as [-> | ->]; repeat split. }
    destruct Hs1 as (Hp1 & Hr1 & Hv1).
    destruct (Hdeliver s1) as (Hp2 & Hr2 & Hin & Hout).
    split; [congruence|]. split; [congruence|]. split.
    + intros k Hk. rewrite fmap_cons in Hk.
      destruct (decide (k ∈ id <$> rest)) as [Hrest|Hrest]; [exact (Hin k Hrest)|].
      apply elem_of_cons in Hk as [-> | Hk]; [|contradiction].
      rewrite (Hout _ Hrest), Hv1, lookup_insert_eq.
      eexists. split; [reflexivity|]. exists (GeminiService.points result).
      split; [exact Hscale | reflexivity].
    + intros k Hk. rewrite fmap_cons in Hk. apply not_elem_of_cons in Hk as [Hne Hrest].
      rewrite (Hout _ Hrest), Hv1. apply lookup_insert_ne. congruence.
Qed.

(** X15. A pass fills in the estimates, and the scheduler of the client
    comes to rest only once their echoes are in. When the scheduler fires
    in a room the store has, and every simulated participant of the
    roster has a row in the store and a persona in the catalog: in the
    state the pass leaves, with its flag down and none of its echoes
    applied yet, the firing condition still holds (an effect that runs
    then starts a second pass); once the echoes of the pass are applied
    the condition is false, the flag of the client is down, the phase and
    the roster are as before, and every simulated participant has an
    estimate whose value is the decimal string of a member of 1, 2, 3, 5,
    8, 13, 21. *)
Theorem aiEffect_rests_after_echo roomId rt (w : World) :
  firesAiVotes w = true ->
  is_Some (rooms_table (db w) !! roomId) ->
  (forall p, p ∈ aiPlayersOf (roomState w) ->
             is_Some (players_table (db w) !! id p)
             /\ id p ∈ persona_id <$> AI_PERSONAS) ->
  let ended := (aiEffect roomId rt w).1.2 in
  let w' := andEcho roomId (aiEffect roomId rt) w in
  (roomState ended = roomState w
   /\ isProcessingAI ended = false
   /\ firesAiVotes ended = true)
  /\ firesAiVotes w' = false
  /\ isProcessingAI w' = false
  /\ phase (roomState w') = phase (roomState w)
  /\ players (roomState w') = players (roomState w)
  /\ (forall p, p ∈ aiPlayersOf (roomState w) ->
                exists v, votes (roomState w') !! id p = Some v /\ scaleEstimate v).
Proof.
  intros Hfires Hroom Hrows ended w'.
  pose proof Hfires as Hcond.
  apply firesAiVotes_iff in Hcond as (Hphase & Hai & Hidle & Hlacking).
  assert (exists w2 log,
    aiEffect roomId rt w = (Normal tt, w2, log)
    /\ isProcessingAI w2 = false
    /\ roomState w2 = roomState w
    /\ forall s,
        let s' := deliver roomId (changesOf log) s in
        phase s' = phase s /\ players s' = players s
        /\ (forall k, k ∈ id <$> aiPlayersOf (roomState w) ->
                      exists v, votes s' !! k = Some v /\ scaleEstimate v)
        /\ (forall k, k ∉ id <$> aiPlayersOf (roomState w) ->
                      votes s' !! k = votes s !! k))
    as (w2 & log & E & Hdone & Hst & Hdeliver).
  { unfold aiEffect, render. unfold mbind at 1, Io_bind at 1. rewrite Hfires.
    unfold triggerAiVotes.
    destruct (decide (phase (roomState w) ≠ VOTING)) as [Hne|_]; [congruence|].
    destruct (decide (length (aiPlayersOf (roomState w)) = 0%nat)) as [Hz|_].
    { destruct (aiPlayersOf (roomState w)); [congruence | discriminate Hz]. }
    unfold mbind at 1 2, Io_bind at 1 2, setIsProcessingAI at 1.
    match goal with
    | |- context [forAiPlayers _ _ _ _ _ ?w0] =>
      destruct (forAiPlayers_votes roomId rt (story (roomState w))
                  (aiPlayersOf (roomState w)) 0%nat w0 Hroom Hrows)
        as (w1 & log & E & Hst & _ & Hdeliver)
    end.
    rewrite E. simpl. rewrite app_nil_r. eexists _, _.
    split; [reflexivity|]. split; [reflexivity|]. split; [exact Hst | exact Hdeliver]. }
  destruct (andEcho_rest roomId (aiEffect roomId rt) w) as (_ & _ & _ & Hbusy & Hs).
  fold w' in Hbusy, Hs. subst ended. rewrite E in Hbusy, Hs |- *. cbn [fst snd] in *.
  rewrite Hdone in Hbusy. rewrite Hst in Hs.
  split.
  { split; [exact Hst|]. split; [exact Hdone|].
    apply firesAiVotes_iff. rewrite Hst. auto. }
  destruct (Hdeliver (roomState w)) as (Hp & Hr & Hin & _).
  rewrite <- Hs in Hp, Hr, Hin.
  assert (Hvoted : forall p, p ∈ aiPlayersOf (roomState w) ->
                   exists v, votes (roomState w') !! id p = Some v /\ scaleEstimate v).
  { intros p Hp0. apply Hin, list_elem_of_fmap. eauto. }
  split; [|auto].
  destruct (firesAiVotes w') eqn:Hagain; [|reflexivity].
  apply firesAiVotes_iff in Hagain as (_ & _ & _ & p & Hp0 & Hnone & _).
  unfold aiPlayersOf in Hp0. rewrite Hr in Hp0.
  destruct (Hvoted p Hp0) as (v & Hv & _). congruence.
Qed.

Lemma aiEffect_rests_after_echo_witness :
  let w := Examples.halfVoted in
  let ended := (aiEffect "R1" Examples.offline w).1.2 in
  let w' := andEcho "R1" (aiEffect "R1" Examples.offline) w in
  (roomState ended = roomState w
   /\ isProcessingAI ended = false
   /\ firesAiVotes ended = true)
  /\ firesAiVotes w' = false
  /\ isProcessingAI w' = false
  /\ phase (roomState w') = phase (roomState w)
  /\ players (roomState w') = players (roomState w)
  /\ (forall p, p ∈ aiPlayersOf (roomState w) ->
                exists v, votes (roomState w') !! id p = Some v /\ scaleEstimate v).
Proof.
  apply (aiEffect_rests_after_echo "R1" Examples.offline Examples.halfVoted).
  - reflexivity.
  - vm_compute. eauto.
  - refine (proj1 (Forall_forall _ _) _).
    refine (bool_decide_unpack _ _). vm_compute. exact I.
Defined.

End Quiescence.

(** ** Local storage and the name form *)

Section Storage.

Import LocalStorage UsernameModal.

(** X16. The participant id of a room survives a reload. With a generated
    id that is not empty, the id the mount effect resolves is not empty,
    it is the stored one when one was stored and the generated one
    otherwise, and resolving again against the storage it left gives the
    same id and the same storage whatever is generated the second time;
    the ids kept for other rooms and the saved name are not touched. *)
Theorem resolveUserId_persists (roomId generated again : string)
    (localStorage : gmap string string) :
  truthy generated = true ->
  let userId := (resolveUserId roomId generated localStorage).1 in
  let localStorage' := (resolveUserId roomId generated localStorage).2 in
  truthy userId = true
  /\ userId = or_else (default "" (localStorage !! ("poker_user_id_" ++ roomId))) generated
  /\ resolveUserId roomId again localStorage' = (userId, localStorage')
  /\ (forall other, other <> roomId ->
                    localStorage' !! ("poker_user_id_" ++ other)
                    = localStorage !! ("poker_user_id_" ++ other))
  /\ localStorage' !! "poker_username" = localStorage !! "poker_username".
Proof.
  intros Hgen userId localStorage'. subst userId localStorage'.
  assert (Hother : forall other, other <> roomId ->
            "poker_user_id_" ++ roomId <> "poker_user_id_" ++ other).
  { intros other Hne E. simpl in E. simplify_eq. }
  assert (Hname : "poker_user_id_" ++ roomId <> "poker_username").
  { simpl. discriminate. }
  unfold resolveUserId, or_else.
  destruct (localStorage !! ("poker_user_id_" ++ roomId)) as [stored|] eqn:E; simpl.
  - destruct (truthy stored) eqn:Hstored; simpl.
    + rewrite E, Hstored. repeat split; assumption.
    + rewrite lookup_insert_eq, Hgen.
      split; [reflexivity|]. split; [reflexivity|]. split; [reflexivity|].
      split; [|apply lookup_insert_ne, Hname].
      intros other Hne. apply lookup_insert_ne, Hother, Hne.
  - rewrite lookup_insert_eq, Hgen.
    split; [reflexivity|]. split; [reflexivity|]. split; [reflexivity|].
    split; [|apply lookup_insert_ne, Hname].
    intros other Hne. apply lookup_insert_ne, Hother, Hne.
Qed.

Lemma resolveUserId_persists_witness :
  let localStorage : gmap string string := {[ "poker_user_id_R2" := "b7" ]} in
  let userId := (resolveUserId "R1" "a1" localStorage).1 in
  let localStorage' := (resolveUserId "R1" "a1" localStorage).2 in
  truthy userId = true
  /\ userId = or_else (default "" (localStorage !! ("poker_user_id_" ++ "R1"))) "a1"
  /\ resolveUserId "R1" "c3" localStorage' = (userId, localStorage')
  /\ (forall other, other <> "R1" ->
                    localStorage' !! ("poker_user_id_" ++ other)
                    = localStorage !! ("poker_user_id_" ++ other))
  /\ localStorage' !! "poker_username" = localStorage !! "poker_username".
Proof.
  exact (resolveUserId_persists "R1" "a1" "c3" {[ "poker_user_id_R2" := "b7" ]} eq_refl).
Defined.

Lemma trim_length_truthy (s : string) : (2 <= String.length s)%nat -> truthy s = true.
Proof. destruct s; simpl; [lia | reflexivity]. Qed.

(** X17. The name form, for a name typed in ASCII. A submission is
    accepted exactly when the trimmed name has 2 to 20 characters, 20
    included; what is saved is the trimmed name, it is not empty, and the
    saved name is the one loaded on the next visit, the participant ids
    in the storage being left alone. Otherwise an error is set and nothing
    is saved. *)
Theorem handleSubmit_saves (username : string) :
  ascii_only username = true ->
  match handleSubmit username with
  | onSave name =>
    name = trim username
    /\ (2 <= String.length name <= 20)%nat
    /\ truthy name = true
    /\ forall localStorage : gmap string string,
        loadUsername (saveUsername name localStorage).2 = name
        /\ forall roomId, (saveUsername name localStorage).2 !! ("poker_user_id_" ++ roomId)
                           = localStorage !! ("poker_user_id_" ++ roomId)
  | setError message =>
    ((String.length (trim username) < 2)%nat
     /\ message = "Name must be at least 2 characters")
    \/ ((20 < String.length (trim username))%nat
        /\ message = "Name must be less than 20 characters")
  end.
Proof.
  intros _. unfold handleSubmit.
  destruct (Nat.ltb_spec (String.length (trim username)) 2) as [Hshort|Hlong].
  { left. split; [exact Hshort | reflexivity]. }
  destruct (Nat.ltb_spec 20 (String.length (trim username))) as [Hbig|Hsmall].
  { right. split; [exact Hbig | reflexivity]. }
  pose proof (trim_length_truthy _ Hlong) as Htruthy.
  split; [reflexivity|]. split; [lia|]. split; [exact Htruthy|].
  intros localStorage. unfold loadUsername, saveUsername. cbn [snd]. split.
  - rewrite lookup_insert_eq, Htruthy. reflexivity.
  - intros roomId. apply lookup_insert_ne. simpl. discriminate.
Qed.

(** A name of twenty characters between two spaces is accepted and saved
    without the spaces. *)
Lemma handleSubmit_saves_witness :
  let name := "Ann of the North Sea" in
  String.length name = 20%nat
  /\ name = trim " Ann of the North Sea "
  /\ (2 <= String.length name <= 20)%nat
  /\ truthy name = true
  /\ forall localStorage : gmap string string,
      loadUsername (saveUsername name localStorage).2 = name
      /\ forall roomId, (saveUsername name localStorage).2 !! ("poker_user_id_" ++ roomId)
                         = localStorage !! ("poker_user_id_" ++ roomId).
Proof.
  split; [reflexivity|].
  exact (handleSubmit_saves " Ann of the North Sea " eq_refl).
Defined.

End Storage.

(** ** The tally of the results *)

Section Chart.

Import ResultsChart SpecMore.

Lemma counted_snoc (l : list JsValue) (x : JsValue) :
  counted (l ++ [x])
  = (counted l ++ (if decide (x = JsString "?") then [] else [x]))%list.
Proof.
  unfold counted. rewrite filter_app. f_equal.
  rewrite filter_cons, filter_nil.
  destruct (decide (x = JsString "?")) as [->|Hx].
  - rewrite decide_False by (intros H; exact (H eq_refl)). reflexivity.
  - rewrite decide_True by exact Hx. reflexivity.
Qed.

Lemma frequency_snoc (key : string) (l : list JsValue) (x : JsValue) :
  frequency key (l ++ [x])
  = (frequency key l
     + (if decide (x = JsString "?") then 0
        else if decide (toString x = key) then 1 else 0))%nat.
Proof.
  unfold frequency. rewrite counted_snoc, filter_app, length_app. f_equal.
  destruct (decide (x = JsString "?")); [reflexivity|].
  rewrite filter_cons, filter_nil. destruct (decide (toString x = key)); reflexivity.
Qed.

Lemma frequency_le_counted (key : string) (l : list JsValue) :
  (frequency key l <= length (counted l))%nat.
Proof. unfold frequency. apply length_filter. Qed.

Lemma tally_snoc parse (l : list JsValue) (x : JsValue) :
  tally parse (l ++ [x]) = tallyVote parse (tally parse l) x.
Proof. unfold tally. rewrite fold_left_app. reflexivity. Qed.

(** The loop invariant of the tally, on the own properties of [dataMap]. *)
Lemma tally_invariant parse (voteValues : list JsValue) :
  let t := tally parse voteValues in
  count t = length (counted voteValues)
  /\ (forall key, dataMap t !! key
                  = if decide (frequency key voteValues = 0%nat) then None
                    else Some (frequency key voteValues))
  /\ (forall key, (frequency key voteValues <= maxFreq t)%nat)
  /\ (maxFreq t <= count t)%nat
  /\ (if decide (counted voteValues = []) then maxFreq t = 0%nat /\ consensusValue t = ""
      else (0 < maxFreq t)%nat /\ frequency (consensusValue t) voteValues = maxFreq t).
Proof.
  induction voteValues as [|x l IH] using rev_ind.
  - simpl. split; [reflexivity|]. split; [intros key; apply lookup_empty|].
    split; [intros key; apply Nat.le_refl|]. split; [apply Nat.le_refl|]. split; reflexivity.
  - cbn zeta in *. destruct IH as (Hcount & Hmap & Hmax & Hle & Hcons).
    rewrite tally_snoc. set (t := tally parse l) in *.
    assert (Hfreq := fun key => frequency_snoc key l x).
    assert (Hcounted := counted_snoc l x).
    unfold tallyVote.
    destruct (decide (x = JsString "?")) as [Hskip|Hkeep].
    + rewrite Hcounted, app_nil_r.
      split; [exact Hcount|].
      split; [intros key; rewrite Hfreq, Nat.add_0_r; apply Hmap|].
      split; [intros key; rewrite Hfreq, Nat.add_0_r; apply Hmax|].
      split; [exact Hle|].
      destruct (decide (counted l = [])) as [He|Hne]; [exact Hcons|].
      destruct Hcons as [Hpos Hc]. split; [exact Hpos|].
      rewrite Hfreq, Nat.add_0_r. exact Hc.
    + cbn [dataMap count maxFreq consensusValue].
      set (key0 := toString x).
      assert (Hold : default 0%nat (dataMap t !! key0) = frequency key0 l).
      { rewrite Hmap. destruct (decide (frequency key0 l = 0%nat)) as [->|_]; reflexivity. }
      rewrite Hold.
      assert (Hnew : frequency key0 (l ++ [x]) = (frequency key0 l + 1)%nat).
      { rewrite Hfreq. subst key0. rewrite decide_True by reflexivity. reflexivity. }
      assert (Hother : forall key, key <> key0 -> frequency key (l ++ [x]) = frequency key l).
      { intros key Hne. rewrite Hfreq. subst key0.
        rewrite decide_False by congruence. apply Nat.add_0_r. }
      assert (Hlen : length (counted (l ++ [x])) = S (length (counted l))).
      { rewrite Hcounted, length_app. simpl. lia. }
      assert (Hnonempty : counted (l ++ [x]) <> []).
      { intros E. rewrite E in Hlen. discriminate Hlen. }
      pose proof (frequency_le_counted key0 l) as Hbound.
      split; [rewrite Hlen, Hcount; reflexivity|].
      split.
      { intros key. destruct (decide (key = key0)) as [->|Hne].
        - rewrite lookup_insert_eq, Hnew.
          rewrite decide_False by lia. reflexivity.
        - rewrite lookup_insert_ne by congruence. rewrite (Hother key Hne). apply Hmap. }
      destruct (Nat.ltb_spec (maxFreq t) (frequency key0 l + 1)) as [Hbigger|Hnot].
      * split.
        { intros key. destruct (decide (key = key0)) as [->|Hne].
          - rewrite Hnew. apply Nat.le_refl.
          - rewrite (Hother key Hne). specialize (Hmax key). lia. }
        split; [lia|]. rewrite decide_False by exact Hnonempty.
        split; [lia | exact Hnew].
      * split.
        { intros key. destruct (decide (key = key0)) as [->|Hne].
          - rewrite Hnew. exact Hnot.
          - rewrite (Hother key Hne). apply Hmax. }
        split; [lia|]. rewrite decide_False by exact Hnonempty.
        split; [lia|].
        destruct (decide (counted l = [])) as [He|Hne]; [lia|].
        destruct Hcons as [Hpos Hc].
        destruct (decide (consensusValue t = key0)) as [Heq|Hneq].
        -- rewrite Heq in Hc |- *. lia.
        -- rewrite (Hother _ Hneq). exact Hc.
Qed.


(** X18. The tally of the results, for any list of vote values of which
    none prints as the name of a property every object inherits
    (constructor, toString, ...), and any conversion to numbers. The card
    "?" is skipped; [count] is the number of the other values; [dataMap]
    has, under the string of each of them, how many of them print as that
    string, and no other key; [maxFreq] is the largest of these
    frequencies and at most [count]; when something was counted,
    [consensusValue] is a key of that frequency, and otherwise it is the
    empty string with [maxFreq] 0. *)
Theorem tally_frequencies parse (voteValues : list JsValue) :
  (forall v, v ∈ counted voteValues -> toString v ∉ Object_prototype) ->
  let t := tally parse voteValues in
  count t = length (counted voteValues)
  /\ (forall key, dataMap t !! key
                  = if decide (frequency key voteValues = 0%nat) then None
                    else Some (frequency key voteValues))
  /\ (forall key, (frequency key voteValues <= maxFreq t)%nat)
  /\ (maxFreq t <= count t)%nat
  /\ (if decide (counted voteValues = []) then maxFreq t = 0%nat /\ consensusValue t = ""
      else (0 < maxFreq t)%nat /\ frequency (consensusValue t) voteValues = maxFreq t).
Proof. intros _. apply tally_invariant. Qed.

(** Three votes of 5, one of 8 and a question mark. *)
Lemma tally_frequencies_witness :
  let voteValues :=
    [JsString "5"; JsString "8"; JsString "?"; JsString "5"; JsString "5"] in
  let t := tally (fun _ => PrimFloat.zero) voteValues in
  count t = 4%nat /\ maxFreq t = 3%nat /\ consensusValue t = "5"
  /\ dataMap t !! "5" = Some 3%nat /\ dataMap t !! "8" = Some 1%nat
  /\ dataMap t !! "?" = None.
Proof.
  intros voteValues t.
  assert (Hplain : forall v, v ∈ counted voteValues -> toString v ∉ Object_prototype).
  { refine (proj1 (Forall_forall _ _) _).
    refine (bool_decide_unpack _ _). vm_compute. exact I. }
  destruct (tally_frequencies (fun _ => PrimFloat.zero) voteValues Hplain)
    as (Hcount & Hmap & _ & _ & Hcons).
  split; [exact Hcount|].
  split; [reflexivity|]. split; [reflexivity|].
  split; [exact (Hmap "5")|]. split; [exact (Hmap "8") | exact (Hmap "?")].
Defined.

End Chart.

(** ** Which card is shown selected *)

Section Selected.

Import Spec SpecMore UseSupabaseRoom.

(** X19. The card shown selected after a vote. While the phase is VOTING,
    with the rows of the room and of the current user in the store: after
    the current user casts [v] and the echo is applied, a card is shown
    selected exactly when it is the string [v.toString()]. So no number
    card is ever shown selected, the card just cast included, and the
    card "?" is shown selected after it is cast. *)
Theorem selected_after_vote roomId (w : World) (u : Player) (v : JsValue) :
  currentUser w = Some u ->
  phase (roomState w) = VOTING ->
  is_Some (rooms_table (db w) !! roomId) ->
  is_Some (players_table (db w) !! id u) ->
  let w' := andEcho roomId (handleVote roomId v) w in
  (forall card, App.selected (currentUser w') (roomState w') card
                = bool_decide (card = JsString (toString v)))
  /\ (forall n, App.selected (currentUser w') (roomState w') (JsNumber n) = false)
  /\ (v = JsString "?" ->
      App.selected (currentUser w') (roomState w') (JsString "?") = true).
Proof.
  intros Hu Hphase Hroom Hplayer w'.
  pose proof (handleVote_echo roomId w u v Hu Hphase Hroom Hplayer) as E.
  fold w' in E.
  assert (Hsel : forall card, App.selected (currentUser w') (roomState w') card
                              = bool_decide (card = JsString (toString v))).
  { intros card. rewrite E. unfold App.selected. cbn [currentUser withRoomState withDb].
    rewrite Hu. cbn [roomState onChange votes Votes.player_id castRow withRoomState].
    rewrite lookup_insert_eq. cbn [vote_of_row value Votes.value castRow].
    apply bool_decide_ext. split; congruence. }
  split; [exact Hsel|]. split.
  - intros n. rewrite Hsel. apply bool_decide_eq_false_2. discriminate.
  - intros ->. rewrite Hsel. apply bool_decide_eq_true_2. reflexivity.
Qed.

Lemma selected_after_vote_witness :
  let w' := andEcho "R1" (handleVote "R1" (JsString "?")) Examples.voting in
  (forall card, App.selected (currentUser w') (roomState w') card
                = bool_decide (card = JsString "?"))
  /\ (forall n, App.selected (currentUser w') (roomState w') (JsNumber n) = false)
  /\ App.selected (currentUser w') (roomState w') (JsString "?") = true.
Proof.
  assert (Hroom : is_Some (rooms_table (db Examples.voting) !! "R1"))
    by (vm_compute; eauto).
  assert (Hplayer : is_Some (players_table (db Examples.voting) !! id Examples.ann))
    by (vm_compute; eauto).
  destruct (selected_after_vote "R1" Examples.voting Examples.ann (JsString "?")
              eq_refl eq_refl Hroom Hplayer) as (H1 & H2 & H3).
  split; [exact H1|]. split; [exact H2 | exact (H3 eq_refl)].
Defined.

End Selected.
